(** * Flooded-areas detection notebook: a shallow embedding

    The notebook [Flooded Areas Detection Model/Model.ipynb] defines a U-Net,
    a CSV-driven dataset, a focal loss, a training loop and an IoU metric.
    This file embeds those definitions and states the properties of the
    specification over them.

    Conventions of the embedding.
    - A tensor is its shape together with its elements in row-major order.
    - Floating-point numbers are idealised as real numbers; the one special
      value that the code can produce without rounding, the NaN of the mean
      of an empty tensor, is kept ([Xnan]).
    - A Python exception is a [Raise] in the [result] type.
    - Learned parameters and image decoding belong to the framework; they
      are Section variables, constrained only by the framework's documented
      shape contracts. *)

From Stdlib Require Import Reals Lra Lia ZArith Bool Ascii String Arith List.
Import ListNotations.

Set Implicit Arguments.

(** ** Exceptions and the result monad *)

Inductive exn : Type :=
| IndexError
| RuntimeError
| ValueError
| NameError
| ZeroDivisionError
| FileNotFoundError
| TypeError
| OSError.

Inductive result (A : Type) : Type :=
| Ok (a : A)
| Raise (e : exn).

Arguments Ok {A} a.
Arguments Raise {A} e.

Definition bind {A B : Type} (c : result A) (k : A -> result B) : result B :=
  match c with
  | Ok a => k a
  | Raise e => Raise e
  end.

Notation "x <- c ;; k" := (bind c (fun x => k))
  (at level 61, c at next level, right associativity).

(** ** Extended reals: a float scalar is a real number or NaN *)

Inductive xreal : Type :=
| Xnan
| Xreal (r : R).

(** Addition propagates NaN. *)
Definition Xadd (a b : xreal) : xreal :=
  match a, b with
  | Xreal x, Xreal y => Xreal (x + y)
  | _, _ => Xnan
  end.

(** ** Lists: chunks and element-wise combination *)

Section ListOps.
Variables A B C : Type.

(** [chunks n sz l]: the first [n] consecutive blocks of [sz] elements. *)
Fixpoint chunks (n sz : nat) (l : list A) : list (list A) :=
  match n with
  | O => []
  | S n' => firstn sz l :: chunks n' sz (skipn sz l)
  end.

Fixpoint zipWith (f : A -> B -> C) (l : list A) (m : list B) : list C :=
  match l, m with
  | a :: l', b :: m' => f a b :: zipWith f l' m'
  | _, _ => []
  end.
End ListOps.

(** ** Tensors *)

Record tensor (A : Type) : Type := mkTensor {
  shape : list nat;
  data : list A
}.

Arguments mkTensor {A} shape data.

Definition numel (s : list nat) : nat := fold_right Nat.mul 1%nat s.

Definition wf {A} (t : tensor A) : Prop := length (data t) = numel (shape t).

Fixpoint shape_eqb (s1 s2 : list nat) : bool :=
  match s1, s2 with
  | [], [] => true
  | a :: s1', b :: s2' => Nat.eqb a b && shape_eqb s1' s2'
  | _, _ => false
  end.

(** Element-wise unary operation. *)
Definition tmap {A B} (f : A -> B) (t : tensor A) : tensor B :=
  mkTensor (shape t) (map f (data t)).

(** Element-wise binary operation.  Only operands of one shape are embedded;
    for other shapes torch broadcasts or raises a RuntimeError, and every
    property below is about operands of one shape. *)
Definition tzip {A B C} (f : A -> B -> C) (a : tensor A) (b : tensor B)
  : result (tensor C) :=
  if shape_eqb (shape a) (shape b)
  then Ok (mkTensor (shape a) (zipWith f (data a) (data b)))
  else Raise RuntimeError.

Definition Zsum (l : list Z) : Z := fold_right Z.add 0%Z l.
Definition Rsum (l : list R) : R := fold_right Rplus 0%R l.

(** [vsum r blocks]: the element-wise sum of blocks of [r] elements. *)
Definition vsum (r : nat) (blocks : list (list Z)) : list Z :=
  fold_right (zipWith Z.add) (repeat 0%Z r) blocks.

(** Row-major data of [d0] samples, each of [m] blocks of [r] elements:
    the blocks of every sample are summed element-wise. *)
Definition reduce_blocks (d0 m r : nat) (l : list Z) : list Z :=
  concat (map (fun sample => vsum r (chunks m r sample))
              (chunks d0 (m * r) l)).

(** [t.sum((1, 2))]: dimensions 1 and 2 are reduced, dimension 0 and every
    dimension after the third are kept.  A tensor with fewer than three
    dimensions has no dimension 2 (IndexError). *)
Definition sum_dims_1_2 (t : tensor Z) : result (tensor Z) :=
  match shape t with
  | d0 :: d1 :: d2 :: rest =>
      Ok (mkTensor (d0 :: rest)
            (reduce_blocks d0 (d1 * d2) (numel rest) (data t)))
  | _ => Raise IndexError
  end.

(** [t.mean()] of a float tensor: NaN on an empty tensor. *)
Definition mean (l : list R) : xreal :=
  match l with
  | [] => Xnan
  | _ :: _ => Xreal (Rsum l / INR (length l))
  end.

(** ** Scalar functions of the framework *)

Open Scope R_scope.

(** [torch.sigmoid]. *)
Definition sigmoid (x : R) : R := 1 / (1 + exp (- x)).

(** [(p > 0.5).float()]. *)
Definition gt_half (p : R) : R := if Rgt_dec p (5 / 10) then 1 else 0.

(** [.int()]: conversion of a float to an integer truncates toward zero. *)
Definition to_int (x : R) : Z := if Rle_dec 0 x then Zfloor x else Zceil x.

(** Element-wise [BCEWithLogitsLoss(reduction='none')]:
    [-(y * log (sigmoid x) + (1 - y) * log (1 - sigmoid x))]. *)
Definition bce_with_logits (x y : R) : R :=
  - (y * ln (sigmoid x) + (1 - y) * ln (1 - sigmoid x)).

(** ** The IoU metric (cell 11) *)

(** [smooth = 1e-6]. *)
Definition smooth : R := 1 / 1000000.

Definition calculate_iou (preds labels : tensor R) : result xreal :=
  let preds := tmap sigmoid preds in
  let preds := tmap gt_half preds in
  let preds := tmap to_int preds in
  let labels := tmap to_int labels in
  pl <- tzip Z.land preds labels ;;
  intersection <- sum_dims_1_2 pl ;;
  po <- tzip Z.lor preds labels ;;
  union <- sum_dims_1_2 po ;;
  iou <- tzip Rdiv (tmap (fun k => IZR k + smooth) intersection)
                   (tmap (fun k => IZR k + smooth) union) ;;
  Ok (mean (data iou)).

(** ** The focal loss (cell 9) *)

(** The exponent is a natural number, as the default 2 is. *)
Record FocalLoss : Type := mkFocalLoss {
  alpha : R;
  gamma : nat
}.

(** [FocalLoss.__init__(self, alpha=0.25, gamma=2)] with its defaults. *)
Definition FocalLoss_init : FocalLoss := mkFocalLoss (25 / 100) 2.

(** [nn.BCEWithLogitsLoss(reduction='none')(inputs, targets)]: the target
    size must be the input size (ValueError otherwise). *)
Definition BCEWithLogitsLoss_none (inputs targets : tensor R)
  : result (tensor R) :=
  if shape_eqb (shape inputs) (shape targets)
  then Ok (mkTensor (shape inputs)
             (zipWith bce_with_logits (data inputs) (data targets)))
  else Raise ValueError.

Definition FocalLoss_forward (self : FocalLoss) (inputs targets : tensor R)
  : result xreal :=
  BCE_loss <- BCEWithLogitsLoss_none inputs targets ;;
  let pt := tmap exp (tmap Ropp BCE_loss) in
  let one_minus_pt := tmap (fun p => 1 - p) pt in
  let modulating := tmap (fun q => q ^ gamma self) one_minus_pt in
  let weighted := tmap (fun q => alpha self * q) modulating in
  F_loss <- tzip Rmult weighted BCE_loss ;;
  Ok (mean (data F_loss)).

Definition criterion : FocalLoss := FocalLoss_init.

Close Scope R_scope.

(** ** The U-Net (cell 4) *)

(** The layers of [torch.nn] that the network uses, with the
    hyper-parameters that determine shapes. *)
Inductive layer : Type :=
| Conv2d (in_ch out_ch : nat) (kernel_size stride padding : Z)
| BatchNorm2d (num_features : nat)
| ReLU
| Dropout (rate_num rate_den : nat)
| MaxPool2d (kernel_size : Z)
| ConvTranspose2d (in_ch out_ch : nat) (kernel_size stride padding : Z).

(** Output sizes as documented for each layer (dilation 1, no output
    padding, floor mode). *)
Definition conv_out (k s p : Z) (h : nat) : nat :=
  Z.to_nat ((Z.of_nat h + 2 * p - (k - 1) - 1) / s + 1).

Definition pool_out (k : Z) (h : nat) : nat :=
  Z.to_nat ((Z.of_nat h - (k - 1) - 1) / k + 1).

Definition convT_out (k s p : Z) (h : nat) : nat :=
  Z.to_nat ((Z.of_nat h - 1) * s - 2 * p + (k - 1) + 1).

(** What the layers require of the size of a plane: a convolution needs
    the padded plane to hold the kernel, a pooling needs the plane to hold
    the window, a transposed convolution needs a non-empty output. *)
Definition conv_fits (k p : Z) (h : nat) : bool :=
  (k <=? Z.of_nat h + 2 * p)%Z.

Definition pool_fits (k : Z) (h : nat) : bool := (k <=? Z.of_nat h)%Z.

Definition convT_fits (k s p : Z) (h : nat) : bool :=
  (1 <=? (Z.of_nat h - 1) * s - 2 * p + (k - 1) + 1)%Z.

(** The shape of the output of a layer, or the exception with which it
    refuses its input whatever its mode.  [Conv2d], [MaxPool2d] and
    [ConvTranspose2d] take a batch [(N, C, H, W)] or a single sample
    [(C, H, W)] and raise a RuntimeError on another rank, on a channel
    count that is not theirs, or on a plane that does not fit;
    [BatchNorm2d] takes a batch [(N, C, H, W)] only (ValueError on another
    rank) and raises a RuntimeError on another number of features. *)
Definition layer_shape (l : layer) (s : list nat) : result (list nat) :=
  match l with
  | ReLU | Dropout _ _ => Ok s
  | BatchNorm2d f =>
      match s with
      | [n; c; h; w] => if Nat.eqb c f then Ok s else Raise RuntimeError
      | _ => Raise ValueError
      end
  | Conv2d i o k st p =>
      let out h w := [conv_out k st p h; conv_out k st p w] in
      let fits c h w := Nat.eqb c i && conv_fits k p h && conv_fits k p w in
      match s with
      | [n; c; h; w] =>
          if fits c h w then Ok (n :: o :: out h w) else Raise RuntimeError
      | [c; h; w] =>
          if fits c h w then Ok (o :: out h w) else Raise RuntimeError
      | _ => Raise RuntimeError
      end
  | MaxPool2d k =>
      let out h w := [pool_out k h; pool_out k w] in
      let fits h w := pool_fits k h && pool_fits k w in
      match s with
      | [n; c; h; w] =>
          if fits h w then Ok (n :: c :: out h w) else Raise RuntimeError
      | [c; h; w] =>
          if fits h w then Ok (c :: out h w) else Raise RuntimeError
      | _ => Raise RuntimeError
      end
  | ConvTranspose2d i o k st p =>
      let out h w := [convT_out k st p h; convT_out k st p w] in
      let fits c h w :=
        Nat.eqb c i && convT_fits k st p h && convT_fits k st p w in
      match s with
      | [n; c; h; w] =>
          if fits c h w then Ok (n :: o :: out h w) else Raise RuntimeError
      | [c; h; w] =>
          if fits c h w then Ok (o :: out h w) else Raise RuntimeError
      | _ => Raise RuntimeError
      end
  end.

(** In training mode [BatchNorm2d] normalises with the statistics of the
    batch and refuses a batch that holds a single value per channel
    (ValueError), before it looks at the number of features; in eval mode
    it uses its running statistics.  No other layer of the network
    refuses an input because of its mode. *)
Definition refuses (training : bool) (l : layer) (s : list nat)
  : option exn :=
  match l, s with
  | BatchNorm2d _, [n; _; h; w] =>
      if training && Nat.eqb (n * h * w) 1 then Some ValueError else None
  | _, _ => None
  end.

(** [round(d / 2.0)] of Python 3: halves go to the even neighbour. *)
Definition round_half (d : nat) : nat :=
  let q := Nat.div d 2 in
  if Nat.even d then q else if Nat.even q then q else S q.

(** [CenterCrop] along one axis: pad with [fill] when the axis is shorter
    than the requested size, then take the centred window. *)
Definition center_crop_axis {X} (size : nat) (fill : X) (l : list X)
  : list X :=
  let n := length l in
  let l' :=
    if Nat.ltb n size
    then repeat fill (Nat.div (size - n) 2) ++ l
         ++ repeat fill (Nat.div (size - n + 1) 2)
    else l in
  firstn size (skipn (round_half (length l' - size)) l').

Record UNet : Type := mkUNet {
  enc1 : list layer;
  enc2 : list layer;
  enc3 : list layer;
  enc4 : list layer;
  bottleneck : list layer;
  dec1 : list layer;
  dec2 : list layer;
  dec3 : list layer;
  dec4 : list layer;
  final : layer
}.

(** [nn.Sequential] is the list of its layers, applied in order.  The
    blocks are built with their default arguments only: [CBR] with
    kernel_size=3, stride=1, padding=1, dropout_rate=0.1, [decoder] with
    kernel_size=2, stride=2, padding=0. *)
Definition CBR (in_ch out_ch : nat) : list layer :=
  [Conv2d in_ch out_ch 3 1 1; BatchNorm2d out_ch; ReLU; Dropout 1 10].

Definition encoder (in_ch out_ch : nat) : list layer :=
  CBR in_ch out_ch ++ CBR out_ch out_ch ++ [MaxPool2d 2].

Definition decoder (in_ch out_ch : nat) : list layer :=
  [ConvTranspose2d in_ch out_ch 2 2 0]
  ++ CBR out_ch out_ch ++ CBR out_ch out_ch.

Definition UNet_init (in_channels out_channels : nat) : UNet :=
  {| enc1 := encoder in_channels 64;
     enc2 := encoder 64 128;
     enc3 := encoder 128 256;
     enc4 := encoder 256 512;
     bottleneck := CBR 512 1024 ++ CBR 1024 1024 ++ CBR 1024 1024;
     dec1 := decoder 1536 1024;
     dec2 := decoder (1024 + 256) 512;
     dec3 := decoder (512 + 128) 256;
     dec4 := decoder (256 + 64) 128;
     final := Conv2d 128 out_channels 1 1 0 |}.

Section Network.
(** The element type of feature maps, the value that [CenterCrop] pads
    with, and the numeric content of each layer (its kernel with the
    learned parameters), which belongs to the framework. *)
Variable A : Type.
Variable zero : A.
Variable kernel : layer -> tensor A -> list A.

Definition run_layer (l : layer) (t : tensor A) : result (tensor A) :=
  s <- layer_shape l (shape t) ;;
  Ok (mkTensor s (kernel l t)).

Fixpoint run (ls : list layer) (t : tensor A) : result (tensor A) :=
  match ls with
  | [] => Ok t
  | l :: ls' => t' <- run_layer l t ;; run ls' t'
  end.

(** [torchvision.transforms.CenterCrop([H, W])] on a batch of feature
    maps: every [h x w] plane is cropped (or padded) to [H x W]. *)
Definition CenterCrop (H W : nat) (t : tensor A) : result (tensor A) :=
  match shape t with
  | [n; c; h; w] =>
      let crop_plane (plane : list A) : list A :=
        concat (center_crop_axis H (repeat zero W)
                  (map (center_crop_axis W zero) (chunks h w plane))) in
      Ok (mkTensor [n; c; H; W]
            (concat (map crop_plane (chunks (n * c) (h * w) (data t)))))
  | _ => Raise RuntimeError
  end.

(** [torch.cat([a, b], 1)]: all dimensions but the channels must agree. *)
Definition cat_channels (a b : tensor A) : result (tensor A) :=
  match shape a, shape b with
  | [n; c1; h; w], [n'; c2; h'; w'] =>
      if Nat.eqb n n' && Nat.eqb h h' && Nat.eqb w w'
      then Ok (mkTensor [n; c1 + c2; h; w]
                 (concat (zipWith (@app A)
                            (chunks n (c1 * h * w) (data a))
                            (chunks n (c2 * h * w) (data b)))))
      else Raise RuntimeError
  | _, _ => Raise RuntimeError
  end.

Definition crop_and_concat (up_tensor down_tensor : tensor A)
  : result (tensor A) :=
  match shape up_tensor with
  | [_; _; H; W] =>
      down_tensor_cropped <- CenterCrop H W down_tensor ;;
      cat_channels up_tensor down_tensor_cropped
  | _ => Raise ValueError
  end.

Definition UNet_forward (self : UNet) (x : tensor A) : result (tensor A) :=
  e1 <- run (enc1 self) x ;;
  e2 <- run (enc2 self) e1 ;;
  e3 <- run (enc3 self) e2 ;;
  e4 <- run (enc4 self) e3 ;;
  b <- run (bottleneck self) e4 ;;
  c1 <- crop_and_concat b e4 ;;
  d1 <- run (dec1 self) c1 ;;
  c2 <- crop_and_concat d1 e3 ;;
  d2 <- run (dec2 self) c2 ;;
  c3 <- crop_and_concat d2 e2 ;;
  d3 <- run (dec3 self) c3 ;;
  c4 <- crop_and_concat d3 e1 ;;
  d4 <- run (dec4 self) c4 ;;
  run_layer (final self) d4.
End Network.

Section Modes.
(** The layers of a module are called in the mode of the module,
    [self.training], which [model.train()] and [model.eval()] set on every
    layer and which is [True] on a freshly built model.  [run_layer],
    [run] and [UNet_forward] above are the computation when no layer
    refuses its input because of the mode; [layer_call], [Sequential_call]
    and [UNet_call] are the calls [layer(x)], [block(x)] and [model(x)] in
    the mode [training]. *)
Variable A : Type.
Variable training : bool.
Variable zero : A.
Variable kernel : layer -> tensor A -> list A.

Definition layer_call (l : layer) (t : tensor A) : result (tensor A) :=
  match refuses training l (shape t) with
  | Some e => Raise e
  | None => run_layer kernel l t
  end.

Fixpoint Sequential_call (ls : list layer) (t : tensor A)
  : result (tensor A) :=
  match ls with
  | [] => Ok t
  | l :: ls' => t' <- layer_call l t ;; Sequential_call ls' t'
  end.

Definition UNet_call (self : UNet) (x : tensor A) : result (tensor A) :=
  e1 <- Sequential_call (enc1 self) x ;;
  e2 <- Sequential_call (enc2 self) e1 ;;
  e3 <- Sequential_call (enc3 self) e2 ;;
  e4 <- Sequential_call (enc4 self) e3 ;;
  b <- Sequential_call (bottleneck self) e4 ;;
  c1 <- crop_and_concat zero b e4 ;;
  d1 <- Sequential_call (dec1 self) c1 ;;
  c2 <- crop_and_concat zero d1 e3 ;;
  d2 <- Sequential_call (dec2 self) c2 ;;
  c3 <- crop_and_concat zero d2 e2 ;;
  d3 <- Sequential_call (dec3 self) c3 ;;
  c4 <- crop_and_concat zero d3 e1 ;;
  d4 <- Sequential_call (dec4 self) c4 ;;
  layer_call (final self) d4.
End Modes.

(** ** Transforms (cell 7) *)

(** The [torchvision.transforms] that the notebook builds.  Fractional
    hyper-parameters are written in thousandths. *)
Inductive transform : Type :=
| Resize (h w : nat)
| ToTensor
| Normalize (mean_milli std_milli : list nat)
| RandomHorizontalFlip (p_milli : nat)
| RandomVerticalFlip (p_milli : nat)
| ColorJitter (brightness_milli contrast_milli saturation_milli hue_milli : nat)
| RandomRotation (degrees : nat).

(** Whether applying the transform draws from the random generator. *)
Definition is_random (t : transform) : bool :=
  match t with
  | Resize _ _ | ToTensor | Normalize _ _ => false
  | RandomHorizontalFlip _ | RandomVerticalFlip _
  | ColorJitter _ _ _ _ | RandomRotation _ => true
  end.

(** [transforms.Compose] is the list of its transforms, applied in order. *)
Definition Compose (ts : list transform) : list transform := ts.

Definition data_augmentation : list transform :=
  Compose [RandomHorizontalFlip 500;
           RandomVerticalFlip 500;
           ColorJitter 200 200 200 100;
           RandomHorizontalFlip 500;
           RandomVerticalFlip 500;
           RandomRotation 10;
           ColorJitter 200 200 200 100].

Definition image_transform : list transform :=
  Compose [Resize 256 256; ToTensor; Normalize [485; 456; 406] [229; 224; 225]].

Definition mask_transform : list transform :=
  Compose [Resize 256 256; ToTensor].

(** ** Paths and data frames *)

Open Scope string_scope.

Fixpoint endswith_sep (s : string) : bool :=
  match s with
  | EmptyString => false
  | String c EmptyString => Ascii.eqb c "/"%char
  | String _ s' => endswith_sep s'
  end.

(** [posixpath.join(a, b)] on two strings. *)
Definition path_join (a b : string) : string :=
  if String.prefix "/" b then b
  else if orb (String.eqb a "") (endswith_sep a) then a ++ b
  else a ++ "/" ++ b.

(** A value of a data frame.  [pd.read_csv] infers the type of every
    column: a column of names holds Python strings, a column whose cells
    all read as numbers holds int64 or float64 values (a missing cell is
    the float NaN), a column of True/False holds booleans. *)
Inductive cell : Type :=
| Str (s : string)
| Int (z : Z)
| Float
| Bool (b : bool).

(** A data frame as its header and its data rows. *)
Record DataFrame : Type := mkDataFrame {
  columns : list string;
  rows : list (list cell)
}.

(** [df.iloc[idx, col]] with Python's negative indices. *)
Definition iloc (df : DataFrame) (idx : Z) (col : nat) : result cell :=
  let n := Z.of_nat (length (rows df)) in
  let i := if (idx <? 0)%Z then (n + idx)%Z else idx in
  if ((0 <=? i) && (i <? n))%Z
  then match nth_error (rows df) (Z.to_nat i) with
       | Some row =>
           match nth_error row col with
           | Some cell => Ok cell
           | None => Raise IndexError
           end
       | None => Raise IndexError
       end
  else Raise IndexError.

(** [os.path.join(a, b)] where [b] is a value of the data frame: a value
    that is not a string is refused with a TypeError. *)
Definition os_path_join (a : string) (b : cell) : result string :=
  match b with
  | Str name => Ok (path_join a name)
  | _ => Raise TypeError
  end.

(** ** The dataset (cell 6) *)

Section Dataset.
(** Python objects handled by the loader (PIL images and tensors), the
    state of the random generator, and the framework's functions on them:
    [csv_files f] is the data frame that [pd.read_csv] returns for the
    file [f] (blank lines skipped, column types inferred) or the exception
    it raises; [Image_open] opens a file without decoding it; [convert]
    decodes it, and can fail on a file that [Image_open] accepted. *)
Variable obj : Type.
Variable rng : Type.
Variable csv_files : string -> result DataFrame.
Variable Image_open : string -> result obj.
Variable convert : string -> obj -> result obj.
Variable deterministic : transform -> obj -> obj.
Variable randomized : transform -> rng -> obj -> obj * rng.

Definition apply_transform (t : transform) (x : obj) (g : rng) : obj * rng :=
  if is_random t then randomized t g x else (deterministic t x, g).

Fixpoint apply_compose (ts : list transform) (x : obj) (g : rng)
  : obj * rng :=
  match ts with
  | [] => (x, g)
  | t :: ts' => let (x', g') := apply_transform t x g in
                apply_compose ts' x' g'
  end.

Record FloodDataset : Type := mkFloodDataset {
  img_labels : DataFrame;
  img_dir : string;
  mask_dir : string;
  ds_image_transform : option (list transform);
  ds_mask_transform : option (list transform)
}.

Definition FloodDataset_init (csv_file img_dir mask_dir : string)
    (image_transform mask_transform : option (list transform))
  : result FloodDataset :=
  df <- csv_files csv_file ;;
  Ok (mkFloodDataset df img_dir mask_dir image_transform mask_transform).

Definition FloodDataset_len (self : FloodDataset) : nat :=
  length (rows (img_labels self)).

Definition FloodDataset_getitem (self : FloodDataset) (idx : Z) (g : rng)
  : result ((obj * obj) * rng) :=
  c0 <- iloc (img_labels self) idx 0 ;;
  img_name <- os_path_join (img_dir self) c0 ;;
  c1 <- iloc (img_labels self) idx 1 ;;
  mask_name <- os_path_join (mask_dir self) c1 ;;
  i <- Image_open img_name ;;
  image <- convert "RGB" i ;;
  m <- Image_open mask_name ;;
  mask <- convert "L" m ;;
  let (image, g) :=
    match ds_image_transform self with
    | Some tr => apply_compose tr image g
    | None => (image, g)
    end in
  let (mask, g) :=
    match ds_mask_transform self with
    | Some tr => apply_compose tr mask g
    | None => (mask, g)
    end in
  Ok ((image, mask), g).

Definition train_dataset : result FloodDataset :=
  FloodDataset_init
    "/content/drive/MyDrive/DLCV Project/Flood-Detection-Project/train-metadata.csv"
    "/content/drive/MyDrive/DLCV Project/Flood-Detection-Project/Image/Train-images"
    "/content/drive/MyDrive/DLCV Project/Flood-Detection-Project/Mask/Train-Masks"
    (Some image_transform) (Some mask_transform).

Definition test_dataset : result FloodDataset :=
  FloodDataset_init
    "/content/drive/MyDrive/DLCV Project/Flood-Detection-Project/test-metadata.csv"
    "/content/drive/MyDrive/DLCV Project/Flood-Detection-Project/Image/Test-images"
    "/content/drive/MyDrive/DLCV Project/Flood-Detection-Project/Mask/Test-Masks"
    (Some image_transform) (Some mask_transform).
End Dataset.

Close Scope string_scope.

(** ** Training (cell 9) and evaluation (cell 11) *)

(** [total_iou / count]. *)
Definition Xdiv (a : xreal) (d : R) : xreal :=
  match a with
  | Xreal x => Xreal (x / d)
  | Xnan => Xnan
  end.

(** The operations on the model and the optimizer that the two loops
    perform, in the order in which they happen: the forward pass with the
    mode of the model, the gradient mode and the images it is given, the
    loss with the masks it is given. *)
Inductive event : Type :=
| ModelTrain
| ModelEval
| ZeroGrad
| ForwardPass (training grad_enabled : bool) (images : tensor R)
| LossComputation (masks : tensor R)
| Backward
| OptimizerStep
| PrintLoss
| PrintAverageIoU.

Definition num_epochs : nat := 10.

Section Loops.
(** Parameters and buffers of the model, accumulated gradients, the
    state of AdamW, and the framework's functions on them.  The batches
    that a loader yields are given: [train_loader epoch] for the shuffled
    loader in each epoch, [test_loader] for the sequential one. *)
Variable params : Type.
Variable grads : Type.
Variable ostate : Type.
Variable model_forward :
  params -> bool -> tensor R -> result (tensor R * params).
Variable no_grads : grads.
Variable autograd : params -> tensor R -> tensor R -> grads -> grads.
Variable AdamW_step : params -> grads -> ostate -> params * ostate.
Variable train_loader : nat -> list (tensor R * tensor R).
Variable test_loader : list (tensor R * tensor R).

Record state : Type := mkState {
  model_params : params;
  training : bool;
  grad_enabled : bool;
  param_grads : grads;
  optimizer_state : ostate;
  trace : list event
}.

Definition log (e : event) (st : state) : state :=
  mkState (model_params st) (training st) (grad_enabled st)
          (param_grads st) (optimizer_state st) (trace st ++ [e]).

Definition set_training (b : bool) (st : state) : state :=
  mkState (model_params st) b (grad_enabled st)
          (param_grads st) (optimizer_state st) (trace st).

Definition set_grad_enabled (b : bool) (st : state) : state :=
  mkState (model_params st) (training st) b
          (param_grads st) (optimizer_state st) (trace st).

Definition model_train (st : state) : state :=
  log ModelTrain (set_training true st).

Definition model_eval (st : state) : state :=
  log ModelEval (set_training false st).

Definition optimizer_zero_grad (st : state) : state :=
  log ZeroGrad
    (mkState (model_params st) (training st) (grad_enabled st)
             no_grads (optimizer_state st) (trace st)).

(** [model(images)]. *)
Definition model_call (st : state) (images : tensor R)
  : result (tensor R * state) :=
  r <- model_forward (model_params st) (training st) images ;;
  let (outputs, p) := r in
  Ok (outputs,
      log (ForwardPass (training st) (grad_enabled st) images)
        (mkState p (training st) (grad_enabled st)
                 (param_grads st) (optimizer_state st) (trace st))).

(** [criterion(outputs, masks)]. *)
Definition criterion_call (st : state) (outputs masks : tensor R)
  : result (xreal * state) :=
  loss <- FocalLoss_forward criterion outputs masks ;;
  Ok (loss, log (LossComputation masks) st).

(** [loss.backward()]. *)
Definition loss_backward (st : state) (images masks : tensor R) : state :=
  log Backward
    (mkState (model_params st) (training st) (grad_enabled st)
             (autograd (model_params st) images masks (param_grads st))
             (optimizer_state st) (trace st)).

(** [optimizer.step()]. *)
Definition optimizer_step (st : state) : state :=
  let (p, o) :=
    AdamW_step (model_params st) (param_grads st) (optimizer_state st) in
  log OptimizerStep
    (mkState p (training st) (grad_enabled st) (param_grads st) o (trace st)).

(** The inner loop; [loss] is the Python variable of that name, unbound
    until the first batch has been processed.  [images.to(device)] and
    [masks.to(device)] leave the values as they are. *)
Fixpoint train_batches (batches : list (tensor R * tensor R))
    (st : state) (loss : option xreal) : result (state * option xreal) :=
  match batches with
  | [] => Ok (st, loss)
  | (images, masks) :: rest =>
      let st := optimizer_zero_grad st in
      r <- model_call st images ;;
      let (outputs, st) := r in
      r <- criterion_call st outputs masks ;;
      let (l, st) := r in
      let st := loss_backward st images masks in
      let st := optimizer_step st in
      train_batches rest st (Some l)
  end.

(** [print(f'Epoch ..., Loss: {loss.item()}')]. *)
Definition print_loss (st : state) (loss : option xreal) : result state :=
  match loss with
  | None => Raise NameError
  | Some _ => Ok (log PrintLoss st)
  end.

Fixpoint train_epochs (epochs : list nat) (st : state)
    (loss : option xreal) : result state :=
  match epochs with
  | [] => Ok st
  | epoch :: rest =>
      let st := model_train st in
      r <- train_batches (train_loader epoch) st loss ;;
      let (st, loss) := r in
      st <- print_loss st loss ;;
      train_epochs rest st loss
  end.

Definition training_loop (st : state) : result state :=
  train_epochs (seq 0 num_epochs) st None.

(** The loop over the test loader. *)
Fixpoint eval_batches (batches : list (tensor R * tensor R))
    (st : state) (total_iou : xreal) (count : nat)
  : result (state * xreal * nat) :=
  match batches with
  | [] => Ok (st, total_iou, count)
  | (images, masks) :: rest =>
      r <- model_call st images ;;
      let (outputs, st) := r in
      iou <- calculate_iou outputs masks ;;
      eval_batches rest st (Xadd total_iou iou) (count + 1)
  end.

Definition evaluation (st : state) : result (xreal * state) :=
  let st := model_eval st in
  let saved := grad_enabled st in
  let st := set_grad_enabled false st in
  r <- eval_batches test_loader st (Xreal 0) 0 ;;
  let '(st, total_iou, count) := r in
  let st := set_grad_enabled saved st in
  average_iou <-
    (if Nat.eqb count 0 then Raise ZeroDivisionError
     else Ok (Xdiv total_iou (INR count))) ;;
  Ok (average_iou, log PrintAverageIoU st).
End Loops.

(** ** Reference formulas in the words of the specification *)

Open Scope R_scope.

(** A prediction is positive when its sigmoid is strictly above 0.5, a
    label when its integer cast is positive. *)
Definition pred_positive (p : R) : bool :=
  if Rgt_dec (sigmoid p) (5 / 10) then true else false.

Definition label_positive (l : R) : bool := (0 <? to_int l)%Z.

(** The number of pixels of a sample that satisfy [f]. *)
Definition count_pixels (f : bool -> bool -> bool) (ps ls : list R) : nat :=
  length (filter (fun b => b)
            (zipWith (fun p l => f (pred_positive p) (label_positive l))
               ps ls)).

Definition sample_iou (ps ls : list R) : R :=
  (INR (count_pixels andb ps ls) + smooth)
  / (INR (count_pixels orb ps ls) + smooth).

(** The mean over the batch dimension of the per-sample ratio. *)
Definition spec_iou (preds labels : tensor R) : xreal :=
  match shape preds with
  | d0 :: rest =>
      mean (zipWith sample_iou
              (chunks d0 (numel rest) (data preds))
              (chunks d0 (numel rest) (data labels)))
  | [] => Xnan
  end.


(** The mean over all elements of [alpha * (1 - exp (-BCE))^gamma * BCE]. *)
Definition spec_focal (a : R) (g : nat) (inputs targets : tensor R) : xreal :=
  mean (zipWith (fun x y =>
                   a * (1 - exp (- bce_with_logits x y)) ^ g
                   * bce_with_logits x y)
          (data inputs) (data targets)).

(** The labels of a mask tensor are 0/1-valued. *)
Definition binary_labels (labels : tensor R) : Prop :=
  Forall (fun l => l = 0 \/ l = 1) (data labels).

(** The binarized predictions, as [calculate_iou] computes them. *)
Definition binarize (p : R) : Z := to_int (gt_half (sigmoid p)).

Close Scope R_scope.

(** ** Notions used in the statements *)

Section Counts.
Open Scope Z_scope.

(** [bounded x y]: a count [x] that does not exceed the count [y]. *)
Definition bounded (x y : Z) : Prop := 0 <= x <= y.

(** [bit z]: a binarized prediction or the integer cast of a 0/1 label. *)
Definition bit (z : Z) : Prop := z = 0 \/ z = 1.
End Counts.

Section Ratios.
Open Scope R_scope.

(** The ratio that [calculate_iou] forms from two counts. *)
Definition iou_ratio (i u : Z) : R := (IZR i + smooth) / (IZR u + smooth).

(** The counts that the code reduces: the element-wise AND and OR of the
    binarized predictions and the integer labels. *)
Definition and_bits (preds labels : list R) : list Z :=
  zipWith Z.land (map binarize preds) (map to_int labels).

Definition or_bits (preds labels : list R) : list Z :=
  zipWith Z.lor (map binarize preds) (map to_int labels).

(** The weight that the focal loss gives to a loss value [b]. *)
Definition focal_term (a : R) (g : nat) (b : R) : R :=
  a * (1 - exp (- b)) ^ g * b.





End Ratios.


(** The shape contract of a sequence of layers. *)
Fixpoint seq_shape (ls : list layer) (s : list nat) : result (list nat) :=
  match ls with
  | [] => Ok s
  | l :: ls' => s' <- layer_shape l s ;; seq_shape ls' s'
  end.

(** The first refusal, because of the mode, of a sequence of layers on an
    input of shape [s], if there is one. *)
Fixpoint seq_refuses (training : bool) (ls : list layer) (s : list nat)
  : option exn :=
  match ls with
  | [] => None
  | l :: ls' =>
      match refuses training l s with
      | Some e => Some e
      | None =>
          match layer_shape l s with
          | Ok s' => seq_refuses training ls' s'
          | Raise _ => None
          end
      end
  end.

Section Skips.
Variable A : Type.
Variable zero : A.

(** [produces c t s]: the computation [c] returns the well-formed tensor
    [t], of shape [s]. *)
Definition produces (c : result (tensor A)) (t : tensor A) (s : list nat)
  : Prop :=
  c = Ok t /\ shape t = s /\ wf t.

(** A skip connection of the forward pass: [k] is the center crop of the
    encoder map [down] to the spatial size of the decoder map [up], and the
    decoder input [c] is the concatenation of [up] and [k] along the
    channels. *)
Definition crops (up down k c : tensor A) : Prop :=
  exists n cu cd h w,
    shape up = [n; cu; h; w]
    /\ CenterCrop zero h w down = Ok k
    /\ shape k = [n; cd; h; w]
    /\ cat_channels up k = Ok c
    /\ crop_and_concat zero up down = Ok c
    /\ shape c = [n; cu + cd; h; w].

(** Two batches of feature maps with planes of one size. *)
Definition same_planes (a b : tensor A) : Prop :=
  exists n ca cb h w,
    shape a = [n; ca; h; w] /\ shape b = [n; cb; h; w].
End Skips.

Section Provided.
Variable obj : Type.
Variable rng : Type.
Variable deterministic : transform -> obj -> obj.
Variable randomized : transform -> rng -> obj -> obj * rng.

End Provided.



Section Loaders.
Variable params : Type.
Variable model_forward :
  params -> bool -> tensor R -> result (tensor R * params).


(** The per-batch values: [calculate_iou] of the outputs of the model in
    eval mode against the masks, batch after batch. *)
Fixpoint batch_ious (p : params) (batches : list (tensor R * tensor R))
  : result (list xreal) :=
  match batches with
  | [] => Ok []
  | (images, masks) :: rest =>
      r <- model_forward p false images ;;
      let (outputs, p') := r in
      iou <- calculate_iou outputs masks ;;
      ious <- batch_ious p' rest ;;
      Ok (iou :: ious)
  end.

End Loaders.

Section ReferenceTraining.
(** Training in the words of the specification, on what it changes: the
    parameters of the model, the accumulated gradients and the state of
    the optimizer. *)
Variable params : Type.
Variable grads : Type.
Variable ostate : Type.
Variable model_forward :
  params -> bool -> tensor R -> result (tensor R * params).
Variable no_grads : grads.
Variable autograd : params -> tensor R -> tensor R -> grads -> grads.
Variable AdamW_step : params -> grads -> ostate -> params * ostate.
Variable train_loader : nat -> list (tensor R * tensor R).



End ReferenceTraining.

(** ** Concrete inputs *)

Section ConcreteTensors.
Open Scope R_scope.

(** A batch of one single-channel 2 x 2 image, as the network and the
    loader produce them: the left column is predicted positive, the top
    row is labelled positive. *)
Definition column_preds : tensor R :=
  mkTensor [1; 1; 2; 2]%nat [1; -1; 1; -1].

Definition row_labels : tensor R := mkTensor [1; 1; 2; 2]%nat [1; 1; 0; 0].

(** A batch without samples. *)
Definition empty_batch : tensor R := mkTensor [0; 1; 2; 2]%nat [].

(** A logit 2 against a target 2, outside the range of a mask. *)
Definition out_of_range : tensor R := mkTensor [1%nat] [2].
End ConcreteTensors.

(** [model = UNet(in_channels=3, out_channels=1)] (cell 9). *)
Definition model : UNet := UNet_init 3 1.

(** Feature maps whose elements carry no information, and layers that only
    produce the number of elements of their output shape: the instance on
    which shapes are computed. *)
Definition blank (s : list nat) : tensor unit :=
  mkTensor s (repeat tt (numel s)).

Definition unit_kernel (l : layer) (t : tensor unit) : list unit :=
  match layer_shape l (shape t) with
  | Ok s => repeat tt (numel s)
  | Raise _ => []
  end.

Section ConcreteFiles.
Open Scope string_scope.

(** One CSV file with a header and one data row of file names, images
    that open as their own path, a conversion that records the mode,
    transforms that record nothing. *)
Definition one_row_csv (_ : string) : result DataFrame :=
  Ok (mkDataFrame ["image"; "mask"] [[Str "0.jpg"; Str "0.png"]]).

Definition open_path (path : string) : result string := Ok path.

Definition tag_mode (mode : string) (x : string) : result string :=
  Ok (mode ++ ":" ++ x).




Definition keep (_ : transform) (x : string) : string := x.

Definition draw (_ : transform) (g : nat) (x : string) : string * nat :=
  (x, S g).

Definition one_row_dataset : FloodDataset :=
  mkFloodDataset (mkDataFrame ["image"; "mask"] [[Str "0.jpg"; Str "0.png"]])
    "/data/img" "/data/mask/" (Some image_transform) None.

Definition one_row_train : FloodDataset :=
  mkFloodDataset (mkDataFrame ["image"; "mask"] [[Str "0.jpg"; Str "0.png"]])
    "/content/drive/MyDrive/DLCV Project/Flood-Detection-Project/Image/Train-images"
    "/content/drive/MyDrive/DLCV Project/Flood-Detection-Project/Mask/Train-Masks"
    (Some image_transform) (Some mask_transform).
End ConcreteFiles.

(** A network that returns its input, an optimizer that keeps the
    parameters, loaders of one and of two batches. *)
Definition identity_forward (_ : unit) (_ : bool) (images : tensor R)
  : result (tensor R * unit) := Ok (images, tt).

Definition keep_grads (_ : unit) (_ _ : tensor R) (g : unit) : unit := g.

Definition keep_params (p g o : unit) : unit * unit := (p, o).

Definition one_batch (_ : nat) : list (tensor R * tensor R) :=
  [(column_preds, row_labels)].

Definition initial_state : state unit unit unit :=
  mkState tt false true tt tt [].

Definition two_batches : list (tensor R * tensor R) :=
  [(column_preds, row_labels); (column_preds, row_labels)].

(** ** Further notions and inputs *)

(** Multiplication of a float scalar by a number. *)
Definition Xscale (a : R) (x : xreal) : xreal :=
  match x with
  | Xreal v => Xreal (a * v)
  | Xnan => Xnan
  end.

Section MoreTensors.
Open Scope R_scope.

(** A tensor of one element. *)
Definition single (x : R) : tensor R := mkTensor [1%nat] [x].

(** A batch (N, H, W) of one 2 x 2 image, with the values of [column_preds]
    and [row_labels]. *)
Definition flat_preds : tensor R := mkTensor [1; 2; 2]%nat [1; -1; 1; -1].

Definition flat_labels : tensor R := mkTensor [1; 2; 2]%nat [1; 1; 0; 0].

(** A matrix, without a third dimension. *)
Definition matrix : tensor R := mkTensor [2; 2]%nat [1; -1; 1; -1].

(** Logits with the signs of [column_preds], and a mask with grey levels
    below 1. *)
Definition scaled_preds : tensor R :=
  mkTensor [1; 1; 2; 2]%nat [5; -3; 2; -7].

Definition grey_labels : tensor R :=
  mkTensor [1; 1; 2; 2]%nat [1 / 2; 254 / 255; 0; 3 / 4].
End MoreTensors.

Section TestLoaders.
Variable params : Type.
Variable model_forward :
  params -> bool -> tensor R -> result (tensor R * params).

(** In eval mode the network accepts every batch of images and returns a
    non-empty, well-formed tensor of at least three dimensions, of the
    shape of the masks, and the masks hold 0 and 1 only. *)
Definition evaluable (batches : list (tensor R * tensor R)) : Prop :=
  forall images masks, In (images, masks) batches ->
    forall p, exists outputs p' d0 d1 d2 rest,
      model_forward p false images = Ok (outputs, p')
      /\ shape outputs = d0 :: d1 :: d2 :: rest
      /\ shape masks = shape outputs
      /\ wf outputs /\ wf masks /\ binary_labels masks
      /\ (0 < d0 * numel rest)%nat.
End TestLoaders.

(** A loader that yields no batch. *)
Definition no_batches (_ : nat) : list (tensor R * tensor R) := [].

(** The average that the evaluation of the identity network reports on
    [two_batches], and the state it leaves. *)
Definition two_batches_average : xreal :=
  Xreal ((0 + (iou_ratio 1 2 + (iou_ratio 0 1 + 0)) / (1 + 1)
          + (iou_ratio 1 2 + (iou_ratio 0 1 + 0)) / (1 + 1)) / INR 2)%R.

Definition evaluated_state : state unit unit unit :=
  mkState tt false true tt tt
    [ModelEval; ForwardPass false false column_preds;
     ForwardPass false false column_preds; PrintAverageIoU].

(** Real feature maps filled with zeros, and layers that return zeros: an
    instance on which the network and the loss compose. *)
Definition zeros (s : list nat) : tensor R :=
  mkTensor s (repeat 0%R (numel s)).

Definition zero_kernel (l : layer) (t : tensor R) : list R :=
  match layer_shape l (shape t) with
  | Ok s => repeat 0%R (numel s)
  | Raise _ => []
  end.



(** * Properties *)

(** ** Scalar facts *)

Section Scalars.
Open Scope R_scope.

Lemma sigmoid_range x : 0 < sigmoid x < 1.
Proof.
  unfold sigmoid. pose proof (exp_pos (- x)) as He.
  assert (Hd : 0 < 1 + exp (- x)) by lra.
  split.
  - apply Rdiv_lt_0_compat; lra.
  - apply (Rmult_lt_reg_r (1 + exp (- x))); [exact Hd|].
    unfold Rdiv. rewrite Rmult_assoc, Rinv_l by lra. lra.
Qed.

Lemma sigmoid_gt_half x : sigmoid x > 5 / 10 <-> 0 < x.
Proof.
  unfold sigmoid. pose proof (exp_pos (- x)) as He.
  assert (Hd : 0 < 1 + exp (- x)) by lra.
  assert (Hm : 1 / (1 + exp (- x)) * (1 + exp (- x)) = 1)
    by (field; lra).
  split; intro H.
  - assert (Hlt : exp (- x) < exp 0) by (rewrite exp_0; nra).
    apply exp_lt_inv in Hlt. lra.
  - assert (Hlt : exp (- x) < exp 0) by (apply exp_increasing; lra).
    rewrite exp_0 in Hlt. nra.
Qed.

Lemma to_int_IZR z : to_int (IZR z) = z.
Proof.
  unfold to_int. destruct (Rle_dec 0 (IZR z)).
  - apply ZfloorZ.
  - unfold Zceil. rewrite ZfloorNZ. lia.
Qed.

Lemma binarize_pos x : 0 < x -> binarize x = 1%Z.
Proof.
  intro H. unfold binarize, gt_half.
  destruct (Rgt_dec (sigmoid x) (5 / 10)) as [_|n].
  - apply (to_int_IZR 1).
  - exfalso. apply n. now apply sigmoid_gt_half.
Qed.

Lemma binarize_nonpos x : x <= 0 -> binarize x = 0%Z.
Proof.
  intro H. unfold binarize, gt_half.
  destruct (Rgt_dec (sigmoid x) (5 / 10)) as [g|_].
  - apply sigmoid_gt_half in g. lra.
  - apply (to_int_IZR 0).
Qed.

Lemma binarize_bit x : binarize x = 0%Z \/ binarize x = 1%Z.
Proof.
  destruct (Rlt_dec 0 x).
  - right. now apply binarize_pos.
  - left. apply binarize_nonpos. lra.
Qed.

Lemma binarize_positive x :
  binarize x = if pred_positive x then 1%Z else 0%Z.
Proof.
  unfold pred_positive.
  destruct (Rgt_dec (sigmoid x) (5 / 10)) as [g|n].
  - apply binarize_pos. now apply sigmoid_gt_half.
  - apply binarize_nonpos.
    destruct (Rle_dec x 0); [assumption|].
    exfalso. apply n. apply sigmoid_gt_half. lra.
Qed.

Lemma to_int_binary l :
  l = 0 \/ l = 1 -> to_int l = if label_positive l then 1%Z else 0%Z.
Proof.
  unfold label_positive.
  intros [-> | ->].
  - now rewrite (to_int_IZR 0).
  - now rewrite (to_int_IZR 1).
Qed.

(** The implementation form of the loss: [(1 - y) x + log (1 + exp (-x))]. *)
Lemma bce_with_logits_eq x y :
  bce_with_logits x y = (1 - y) * x + ln (1 + exp (- x)).
Proof.
  unfold bce_with_logits, sigmoid.
  pose proof (exp_pos (- x)) as He.
  assert (Hd : 0 < 1 + exp (- x)) by lra.
  assert (H1 : ln (1 / (1 + exp (- x))) = - ln (1 + exp (- x))).
  { unfold Rdiv. rewrite Rmult_1_l. now apply ln_Rinv. }
  assert (H2 : ln (1 - 1 / (1 + exp (- x))) = - x - ln (1 + exp (- x))).
  { replace (1 - 1 / (1 + exp (- x)))
      with (exp (- x) * / (1 + exp (- x))) by (field; lra).
    rewrite ln_mult; [|assumption|now apply Rinv_0_lt_compat].
    rewrite ln_exp, ln_Rinv by assumption. lra. }
  rewrite H1, H2. ring.
Qed.

Lemma ln_sigmoid_neg x : ln (sigmoid x) < 0 /\ ln (1 - sigmoid x) < 0.
Proof.
  pose proof (sigmoid_range x) as [H0 H1].
  rewrite <- ln_1. split; apply ln_increasing; lra.
Qed.

(** The loss is nonnegative on targets in [0, 1]. *)
Lemma bce_with_logits_nonneg x y :
  0 <= y <= 1 -> 0 <= bce_with_logits x y.
Proof.
  intros [Hy0 Hy1]. unfold bce_with_logits.
  pose proof (ln_sigmoid_neg x) as [Ha Hb].
  assert (y * ln (sigmoid x) <= 0) by nra.
  assert ((1 - y) * ln (1 - sigmoid x) <= 0) by nra.
  lra.
Qed.
End Scalars.

(** ** Lists: blocks and element-wise operations *)

Section ListFacts.
Variables A B C D : Type.

Lemma chunks_length n sz (l : list A) : length (chunks n sz l) = n.
Proof.
  revert l. induction n as [|n IH]; intro l; simpl; [reflexivity|].
  now rewrite IH.
Qed.

Lemma concat_chunks n sz (l : list A) :
  length l = n * sz -> concat (chunks n sz l) = l.
Proof.
  revert l. induction n as [|n IH]; intros l Hl; simpl in *.
  - now destruct l.
  - rewrite IH.
    + apply firstn_skipn.
    + rewrite length_skipn. lia.
Qed.

Lemma chunks_block_length n sz (l : list A) :
  length l = n * sz -> Forall (fun c => length c = sz) (chunks n sz l).
Proof.
  revert l. induction n as [|n IH]; intros l Hl; simpl in *.
  - constructor.
  - constructor.
    + rewrite length_firstn. lia.
    + apply IH. rewrite length_skipn. lia.
Qed.

Lemma zipWith_length (f : A -> B -> C) l m :
  length l = length m -> length (zipWith f l m) = length l.
Proof.
  revert m. induction l as [|a l IH]; intros [|b m] H; simpl in *;
    try discriminate; [reflexivity|].
  f_equal. apply IH. lia.
Qed.

Lemma zipWith_firstn (f : A -> B -> C) n l m :
  firstn n (zipWith f l m) = zipWith f (firstn n l) (firstn n m).
Proof.
  revert l m. induction n as [|n IH]; intros [|a l] [|b m]; simpl;
    try reflexivity.
  now rewrite IH.
Qed.

Lemma zipWith_skipn (f : A -> B -> C) n l m :
  length l = length m ->
  skipn n (zipWith f l m) = zipWith f (skipn n l) (skipn n m).
Proof.
  revert l m. induction n as [|n IH]; intros [|a l] [|b m] H; simpl in *;
    try reflexivity; try discriminate.
  apply IH. lia.
Qed.

Lemma chunks_zipWith (f : A -> B -> C) n sz l m :
  length l = length m ->
  chunks n sz (zipWith f l m)
  = zipWith (zipWith f) (chunks n sz l) (chunks n sz m).
Proof.
  revert l m. induction n as [|n IH]; intros l m H; simpl; [reflexivity|].
  rewrite zipWith_firstn, zipWith_skipn by assumption.
  f_equal. apply IH. now rewrite !length_skipn, H.
Qed.

Lemma zipWith_map_l (g : D -> A) (f : A -> B -> C) l m :
  zipWith f (map g l) m = zipWith (fun d b => f (g d) b) l m.
Proof.
  revert m. induction l as [|a l IH]; intros [|b m]; simpl;
    try reflexivity.
  now rewrite IH.
Qed.

Lemma zipWith_map_r (g : D -> B) (f : A -> B -> C) l m :
  zipWith f l (map g m) = zipWith (fun a d => f a (g d)) l m.
Proof.
  revert m. induction l as [|a l IH]; intros [|b m]; simpl;
    try reflexivity.
  now rewrite IH.
Qed.

Lemma map_zipWith (g : C -> D) (f : A -> B -> C) l m :
  map g (zipWith f l m) = zipWith (fun a b => g (f a b)) l m.
Proof.
  revert m. induction l as [|a l IH]; intros [|b m]; simpl;
    try reflexivity.
  now rewrite IH.
Qed.

Lemma zipWith_ext (f g : A -> B -> C) l m :
  (forall a b, In a l -> In b m -> f a b = g a b) ->
  zipWith f l m = zipWith g l m.
Proof.
  revert m. induction l as [|a l IH]; intros [|b m] H; simpl;
    try reflexivity.
  rewrite H by (now left). f_equal. apply IH.
  intros; apply H; now right.
Qed.

Lemma zipWith_same (f : A -> A -> C) (l : list A) :
  zipWith f l l = map (fun a => f a a) l.
Proof. induction l as [|a l IH]; simpl; [reflexivity|now rewrite IH]. Qed.

Lemma Forall2_firstn (P : A -> B -> Prop) n l m :
  Forall2 P l m -> Forall2 P (firstn n l) (firstn n m).
Proof.
  intro H. revert n. induction H; intros [|n]; simpl; constructor; auto.
Qed.

Lemma Forall2_skipn (P : A -> B -> Prop) n l m :
  Forall2 P l m -> Forall2 P (skipn n l) (skipn n m).
Proof.
  intro H. revert n. induction H; intros [|n]; simpl; auto.
Qed.

Lemma Forall2_chunks (P : A -> B -> Prop) n sz l m :
  Forall2 P l m -> Forall2 (Forall2 P) (chunks n sz l) (chunks n sz m).
Proof.
  revert l m. induction n as [|n IH]; intros l m H; simpl; constructor.
  - now apply Forall2_firstn.
  - apply IH. now apply Forall2_skipn.
Qed.

Lemma Forall2_concat (P : A -> B -> Prop) ls ms :
  Forall2 (Forall2 P) ls ms -> Forall2 P (concat ls) (concat ms).
Proof.
  induction 1; simpl; [constructor|]. now apply Forall2_app.
Qed.

Lemma Forall2_map (P : C -> D -> Prop) (f : A -> C) (g : B -> D) l m :
  Forall2 (fun a b => P (f a) (g b)) l m -> Forall2 P (map f l) (map g m).
Proof. induction 1; simpl; constructor; auto. Qed.

Lemma Forall2_zipWith (P : A -> B -> Prop) (f : A -> B -> C) (Q : C -> Prop)
    l m :
  Forall2 P l m -> (forall a b, P a b -> Q (f a b)) ->
  Forall Q (zipWith f l m).
Proof. induction 1; intro H'; simpl; constructor; auto. Qed.

Lemma Forall2_length_eq (P : A -> B -> Prop) l m :
  Forall2 P l m -> length l = length m.
Proof. induction 1; simpl; congruence. Qed.

Lemma Forall2_impl (P Q : A -> B -> Prop) l m :
  (forall a b, P a b -> Q a b) -> Forall2 P l m -> Forall2 Q l m.
Proof. intros H; induction 1; constructor; auto. Qed.
End ListFacts.

(** ** Sums of blocks *)

Section SumFacts.
Open Scope Z_scope.

Lemma Zsum_app l m : Zsum (l ++ m) = Zsum l + Zsum m.
Proof. induction l as [|a l IH]; simpl; [reflexivity|]. rewrite IH. lia. Qed.

Lemma Zsum_repeat0 n : Zsum (repeat 0 n) = 0.
Proof. induction n as [|n IH]; simpl; [reflexivity|]. now rewrite IH. Qed.

Lemma Zsum_zipWith_add x y :
  length x = length y -> Zsum (zipWith Z.add x y) = Zsum x + Zsum y.
Proof.
  revert y. induction x as [|a x IH]; intros [|b y] H; simpl in *;
    try discriminate; [reflexivity|].
  rewrite IH by lia. lia.
Qed.

Lemma vsum_length r bs :
  Forall (fun b => length b = r) bs -> length (vsum r bs) = r.
Proof.
  induction 1 as [|b bs Hb _ IH]; simpl.
  - apply repeat_length.
  - cbv beta in Hb. rewrite zipWith_length; congruence.
Qed.

Lemma Zsum_vsum r bs :
  Forall (fun b => length b = r) bs -> Zsum (vsum r bs) = Zsum (concat bs).
Proof.
  induction 1 as [|b bs Hb Hbs IH]; simpl.
  - apply Zsum_repeat0.
  - cbv beta in Hb. rewrite Zsum_zipWith_add, Zsum_app.
    + now rewrite IH.
    + pose proof (vsum_length Hbs) as Hl. congruence.
Qed.

Lemma Zsum_concat_map (f : list Z -> list Z) cs :
  Forall (fun c => Zsum (f c) = Zsum c) cs ->
  Zsum (concat (map f cs)) = Zsum (concat cs).
Proof.
  induction 1 as [|c cs Hc _ IH]; simpl; [reflexivity|].
  rewrite !Zsum_app. congruence.
Qed.

(** Reducing blocks keeps the total. *)
Lemma Zsum_reduce_blocks d0 m r l :
  length l = (d0 * (m * r))%nat -> Zsum (reduce_blocks d0 m r l) = Zsum l.
Proof.
  intro Hl. unfold reduce_blocks.
  rewrite Zsum_concat_map.
  - now rewrite concat_chunks.
  - eapply Forall_impl; [|apply chunks_block_length; exact Hl].
    intros c Hc. simpl in Hc.
    rewrite Zsum_vsum by (now apply chunks_block_length).
    now rewrite concat_chunks.
Qed.

Lemma concat_map_length (f : list Z -> list Z) r cs :
  Forall (fun c => length (f c) = r) cs ->
  length (concat (map f cs)) = (length cs * r)%nat.
Proof.
  induction 1 as [|c cs Hc _ IH]; simpl; [reflexivity|].
  rewrite length_app, IH, Hc. reflexivity.
Qed.

Lemma reduce_blocks_length d0 m r l :
  length l = (d0 * (m * r))%nat ->
  length (reduce_blocks d0 m r l) = (d0 * r)%nat.
Proof.
  intro Hl. unfold reduce_blocks.
  rewrite (@concat_map_length _ r).
  - now rewrite chunks_length.
  - eapply Forall_impl; [|apply chunks_block_length; exact Hl].
    intros c Hc. cbv beta in Hc.
    apply vsum_length. now apply chunks_block_length.
Qed.

Lemma bounded_zipWith_add x y u v :
  Forall2 bounded x y -> Forall2 bounded u v ->
  Forall2 bounded (zipWith Z.add x u) (zipWith Z.add y v).
Proof.
  intro H. revert u v. induction H as [|a b x y Hab _ IH];
    intros u v Huv; simpl; [constructor|].
  inversion Huv as [|c d u' v' Hcd Huv']; subst; constructor.
  - unfold bounded in *. lia.
  - now apply IH.
Qed.

Lemma bounded_vsum r bs bs' :
  Forall2 (Forall2 bounded) bs bs' ->
  Forall2 bounded (vsum r bs) (vsum r bs').
Proof.
  induction 1 as [|b b' bs bs' Hb _ IH]; simpl.
  - induction r as [|r IHr]; simpl; constructor; [|assumption].
    unfold bounded; lia.
  - now apply bounded_zipWith_add.
Qed.

Lemma bounded_reduce_blocks d0 m r l l' :
  Forall2 bounded l l' ->
  Forall2 bounded (reduce_blocks d0 m r l) (reduce_blocks d0 m r l').
Proof.
  intro H. unfold reduce_blocks. apply Forall2_concat.
  apply Forall2_map.
  eapply Forall2_impl; [|apply Forall2_chunks; exact H].
  intros c c' Hc. simpl in Hc. apply bounded_vsum.
  now apply Forall2_chunks.
Qed.

Lemma bounded_Zsum_le l l' : Forall2 bounded l l' -> Zsum l <= Zsum l'.
Proof.
  induction 1 as [|a b x y Hab _ IH]; simpl; [lia|].
  unfold bounded in Hab. lia.
Qed.

(** Counts that are bounded element-wise and have one total are equal. *)
Lemma bounded_Zsum_eq l l' :
  Forall2 bounded l l' -> Zsum l = Zsum l' -> l = l'.
Proof.
  induction 1 as [|a b x y Hab Hxy IH]; simpl; intro Hs; [reflexivity|].
  pose proof (bounded_Zsum_le Hxy) as Hle.
  unfold bounded in Hab.
  assert (a = b) by lia. subst b.
  f_equal. apply IH. lia.
Qed.
End SumFacts.

(** ** Means and ratios *)

Section MeanFacts.
Open Scope R_scope.

Lemma smooth_pos : 0 < smooth.
Proof. unfold smooth. lra. Qed.

Lemma iou_ratio_range i u :
  bounded i u ->
  0 < iou_ratio i u <= 1 /\ (iou_ratio i u = 1 <-> i = u).
Proof.
  intros [Hi Hu]. pose proof smooth_pos as Hs.
  apply IZR_le in Hi. pose proof (IZR_le _ _ Hu) as Hiu.
  assert (Hd : 0 < IZR u + smooth) by lra.
  assert (Hm : iou_ratio i u * (IZR u + smooth) = IZR i + smooth).
  { unfold iou_ratio. field. lra. }
  repeat split.
  - unfold iou_ratio. apply Rdiv_lt_0_compat; lra.
  - apply (Rmult_le_reg_r (IZR u + smooth)); [exact Hd|]. lra.
  - intro H1. rewrite H1 in Hm. apply eq_IZR. lra.
  - intros ->. unfold iou_ratio. field. lra.
Qed.

Lemma Rdiv_lt_upper n d c : 0 < d -> n < c * d -> n / d < c.
Proof.
  intros Hd H. apply (Rmult_lt_reg_r d); [exact Hd|].
  unfold Rdiv. rewrite Rmult_assoc, Rinv_l by lra. lra.
Qed.

Lemma Rdiv_lt_lower n d c : 0 < d -> c * d < n -> c < n / d.
Proof.
  intros Hd H. apply (Rmult_lt_reg_r d); [exact Hd|].
  unfold Rdiv. rewrite Rmult_assoc, Rinv_l by lra. lra.
Qed.

Lemma mean_nonempty l :
  l <> [] -> mean l = Xreal (Rsum l / INR (length l)).
Proof. destruct l; [contradiction|reflexivity]. Qed.

Lemma mean_map_nonempty (f : R -> R) l :
  l <> [] -> mean (map f l) = Xreal (Rsum (map f l) / INR (length l)).
Proof.
  intro H. rewrite mean_nonempty by (destruct l; [contradiction|discriminate]).
  now rewrite length_map.
Qed.

Lemma Rsum_unit l :
  Forall (fun x => 0 < x <= 1) l ->
  0 <= Rsum l <= INR (length l)
  /\ (Rsum l = INR (length l) <-> Forall (fun x => x = 1) l).
Proof.
  induction 1 as [|x l Hx Hl [IHb IHe]].
  - simpl. repeat split; try lra. constructor.
  - change (Rsum (x :: l)) with (x + Rsum l).
    change (length (x :: l)) with (S (length l)).
    rewrite S_INR. repeat split; try lra.
    + intro Heq. constructor; [lra|]. apply IHe. lra.
    + intro Hall. inversion Hall as [|? ? H1 H2]; subst.
      apply IHe in H2. lra.
Qed.

Lemma mean_unit l :
  l <> [] -> Forall (fun x => 0 < x <= 1) l ->
  exists v, mean l = Xreal v /\ 0 < v <= 1
            /\ (v = 1 <-> Forall (fun x => x = 1) l).
Proof.
  intros Hne Hall. destruct l as [|x l]; [contradiction|].
  exists (Rsum (x :: l) / INR (length (x :: l))).
  pose proof (Rsum_unit Hall) as [[_ Hub] Heq].
  assert (Hn : 0 < INR (length (x :: l))).
  { apply lt_0_INR. simpl. lia. }
  assert (Hpos : 0 < Rsum (x :: l)).
  { inversion Hall as [|? ? Hx Hl]; subst.
    pose proof (Rsum_unit Hl) as [[Hlb _] _].
    change (Rsum (x :: l)) with (x + Rsum l). lra. }
  set (s := Rsum (x :: l)) in *. set (n := INR (length (x :: l))) in *.
  assert (Hm : s / n * n = s) by (field; lra).
  split; [reflexivity|]. repeat split.
  - apply Rdiv_lt_0_compat; assumption.
  - apply (Rmult_le_reg_r n); [exact Hn|]. lra.
  - intro H1. apply Heq. rewrite H1 in Hm. lra.
  - intro H1. apply Heq in H1. rewrite H1. field. lra.
Qed.
End MeanFacts.

(** ** Bits *)

Section BitFacts.
Open Scope Z_scope.

Lemma bit_land_lor a b : bit a -> bit b -> bounded (Z.land a b) (Z.lor a b).
Proof. intros [-> | ->] [-> | ->]; unfold bounded; simpl; lia. Qed.

Lemma bit_land_lor_eq a b :
  bit a -> bit b -> Z.land a b = Z.lor a b -> a = b.
Proof. intros [-> | ->] [-> | ->]; simpl; intro; congruence. Qed.

Lemma bits_bounded l m :
  Forall bit l -> Forall bit m ->
  Forall2 bounded (zipWith Z.land l m) (zipWith Z.lor l m).
Proof.
  intro H. revert m. induction H as [|a l Ha _ IH]; intros m Hm; simpl;
    [constructor|].
  destruct Hm as [|b m Hb Hm]; constructor.
  - now apply bit_land_lor.
  - now apply IH.
Qed.

Lemma bits_agree l m :
  Forall bit l -> Forall bit m -> length l = length m ->
  zipWith Z.land l m = zipWith Z.lor l m -> l = m.
Proof.
  intro H. revert m. induction H as [|a l Ha _ IH]; intros m Hm Hlen Heq.
  - destruct m; [reflexivity|discriminate].
  - destruct Hm as [|b m Hb Hm]; [discriminate|].
    simpl in *. injection Heq as H1 H2. f_equal.
    + now apply bit_land_lor_eq.
    + apply IH; auto.
Qed.

Lemma binarize_bits (l : list R) : Forall bit (map binarize l).
Proof.
  induction l as [|x l IH]; simpl; constructor; [|assumption].
  apply binarize_bit.
Qed.

Lemma binary_label_bits (l : list R) :
  Forall (fun x => x = 0%R \/ x = 1%R) l -> Forall bit (map to_int l).
Proof.
  induction 1 as [|x l Hx _ IH]; simpl; constructor; [|assumption].
  destruct Hx as [-> | ->].
  - left. apply (to_int_IZR 0).
  - right. apply (to_int_IZR 1).
Qed.
End BitFacts.

(** ** [calculate_iou] *)

Section IoU.
Open Scope R_scope.

Lemma shape_eqb_refl s : shape_eqb s s = true.
Proof.
  induction s as [|a s IH]; simpl; [reflexivity|].
  now rewrite Nat.eqb_refl, IH.
Qed.

Lemma shape_eqb_eq s1 s2 : shape_eqb s1 s2 = true -> s1 = s2.
Proof.
  revert s2. induction s1 as [|a s1 IH]; intros [|b s2] H; simpl in H;
    try discriminate; [reflexivity|].
  apply andb_prop in H as [Hab Hs]. apply Nat.eqb_eq in Hab.
  f_equal; auto.
Qed.

(** On operands of one shape with at least three dimensions the function
    returns the mean of the ratios of the reduced counts. *)
Lemma calculate_iou_eq preds labels d0 d1 d2 rest :
  shape preds = d0 :: d1 :: d2 :: rest ->
  shape labels = shape preds ->
  calculate_iou preds labels
  = Ok (mean (zipWith iou_ratio
                (reduce_blocks d0 (d1 * d2) (numel rest)
                   (and_bits (data preds) (data labels)))
                (reduce_blocks d0 (d1 * d2) (numel rest)
                   (or_bits (data preds) (data labels))))).
Proof.
  intros Hp Hl. unfold calculate_iou, tzip, sum_dims_1_2, tmap.
  cbn [shape data]. rewrite Hl, Hp, shape_eqb_refl. cbn [bind shape data].
  rewrite shape_eqb_refl. cbn [bind data].
  rewrite !map_map, zipWith_map_l, zipWith_map_r.
  reflexivity.
Qed.

(** X2.  With fewer than three dimensions there is no dimension 2. *)
Lemma calculate_iou_low_rank preds labels :
  shape labels = shape preds -> (length (shape preds) < 3)%nat ->
  calculate_iou preds labels = Raise IndexError.
Proof.
  intros Hl Hr. unfold calculate_iou, tzip, sum_dims_1_2, tmap.
  cbn [shape data]. rewrite Hl, shape_eqb_refl. cbn [bind shape data].
  destruct (shape preds) as [|a [|b [|c s]]]; simpl in *; try reflexivity.
  lia.
Qed.
End IoU.

Section IoURange.
Open Scope R_scope.

Lemma ratios_all_one I U :
  Forall2 bounded I U ->
  (Forall (fun x => x = 1) (zipWith iou_ratio I U) <-> I = U).
Proof.
  induction 1 as [|i u I U Hiu _ IH]; simpl.
  - split; [reflexivity|constructor].
  - pose proof (iou_ratio_range Hiu) as [_ Heq]. split.
    + intro H. inversion H as [|? ? H1 H2]; subst.
      f_equal; [now apply Heq|now apply IH].
    + intro H. injection H as H1 H2. constructor.
      * now apply Heq.
      * now apply IH.
Qed.

Lemma ratios_unit I U :
  Forall2 bounded I U ->
  Forall (fun x => 0 < x <= 1) (zipWith iou_ratio I U).
Proof.
  intro H. eapply Forall2_zipWith; [exact H|].
  intros i u Hiu. now apply iou_ratio_range.
Qed.

Lemma and_or_bits_length preds labels :
  length preds = length labels ->
  length (and_bits preds labels) = length preds
  /\ length (or_bits preds labels) = length preds.
Proof.
  intro H. unfold and_bits, or_bits.
  rewrite !zipWith_length by (now rewrite !length_map).
  now rewrite length_map.
Qed.

Lemma and_or_bits_bounded preds labels :
  Forall (fun l => l = 0 \/ l = 1) labels ->
  Forall2 bounded (and_bits preds labels) (or_bits preds labels).
Proof.
  intro H. apply bits_bounded.
  - apply binarize_bits.
  - now apply binary_label_bits.
Qed.

Lemma and_or_bits_agree preds labels :
  Forall (fun l => l = 0 \/ l = 1) labels ->
  length preds = length labels ->
  (and_bits preds labels = or_bits preds labels
   <-> map binarize preds = map to_int labels).
Proof.
  intros Hb Hlen. unfold and_bits, or_bits. split.
  - apply bits_agree.
    + apply binarize_bits.
    + now apply binary_label_bits.
    + now rewrite !length_map.
  - intros ->. rewrite !zipWith_same. apply map_ext.
    intro a. now rewrite Z.land_diag, Z.lor_diag.
Qed.

Lemma numel_rank3 d0 d1 d2 rest :
  numel (d0 :: d1 :: d2 :: rest) = (d0 * (d1 * d2 * numel rest))%nat.
Proof. unfold numel. cbn [fold_right]. lia. Qed.

(** The element-wise facts about the reduced counts of two operands of one
    shape. *)
Lemma reduced_counts preds labels d0 d1 d2 rest :
  shape preds = d0 :: d1 :: d2 :: rest ->
  shape labels = shape preds ->
  wf preds -> wf labels -> binary_labels labels ->
  let I := reduce_blocks d0 (d1 * d2) (numel rest)
             (and_bits (data preds) (data labels)) in
  let U := reduce_blocks d0 (d1 * d2) (numel rest)
             (or_bits (data preds) (data labels)) in
  Forall2 bounded I U
  /\ length I = (d0 * numel rest)%nat
  /\ (I = U <-> map binarize (data preds) = map to_int (data labels)).
Proof.
  intros Hp Hl Hwp Hwl Hb I U.
  unfold wf in Hwp, Hwl. rewrite Hl in Hwl. rewrite Hp, numel_rank3 in *.
  assert (Hlen : length (data preds) = length (data labels)) by congruence.
  destruct (and_or_bits_length _ _ Hlen) as [Ha Ho].
  pose proof (and_or_bits_bounded (data preds) Hb) as Hao.
  assert (HIU : Forall2 bounded I U) by (now apply bounded_reduce_blocks).
  split; [exact HIU|]. split.
  - apply reduce_blocks_length. congruence.
  - rewrite <- (and_or_bits_agree (data preds) Hb Hlen). split.
    + intro Heq. apply bounded_Zsum_eq; [assumption|].
      rewrite <- (@Zsum_reduce_blocks d0 (d1 * d2) (numel rest)
                    (and_bits (data preds) (data labels))) by congruence.
      rewrite <- (@Zsum_reduce_blocks d0 (d1 * d2) (numel rest)
                    (or_bits (data preds) (data labels))) by congruence.
      fold I U. now rewrite Heq.
    + intro Heq. unfold I, U. now rewrite Heq.
Qed.
End IoURange.

(** ** Evaluation on concrete tensors *)

Section Concrete.
Open Scope R_scope.

Lemma pred_positive_pos x : 0 < x -> pred_positive x = true.
Proof.
  intro H. unfold pred_positive.
  destruct (Rgt_dec (sigmoid x) (5 / 10)) as [_|n]; [reflexivity|].
  exfalso. apply n. now apply sigmoid_gt_half.
Qed.

Lemma pred_positive_nonpos x : x <= 0 -> pred_positive x = false.
Proof.
  intro H. unfold pred_positive.
  destruct (Rgt_dec (sigmoid x) (5 / 10)) as [g|_]; [|reflexivity].
  apply sigmoid_gt_half in g. lra.
Qed.

Lemma label_positive_IZR z : label_positive (IZR z) = (0 <? z)%Z.
Proof. unfold label_positive. now rewrite to_int_IZR. Qed.
End Concrete.

Ltac eval_bits :=
  repeat first
    [ rewrite binarize_pos by lra
    | rewrite binarize_nonpos by lra
    | rewrite to_int_IZR
    | rewrite pred_positive_pos by lra
    | rewrite pred_positive_nonpos by lra
    | rewrite label_positive_IZR ].

(** ** Batches (N, H, W) *)

Section Rank3.
Open Scope R_scope.

Lemma chunks_map (A B : Type) (f : A -> B) n sz l :
  chunks n sz (map f l) = map (map f) (chunks n sz l).
Proof.
  revert l. induction n as [|n IH]; intro l; simpl; [reflexivity|].
  now rewrite firstn_map, skipn_map, IH.
Qed.

Lemma Forall_firstn (A : Type) (P : A -> Prop) n l :
  Forall P l -> Forall P (firstn n l).
Proof.
  intro H. revert n. induction H; intros [|n]; simpl; constructor; auto.
Qed.

Lemma Forall_skipn (A : Type) (P : A -> Prop) n l :
  Forall P l -> Forall P (skipn n l).
Proof.
  intro H. revert n. induction H; intros [|n]; simpl; auto.
Qed.

Lemma Forall_chunks (A : Type) (P : A -> Prop) n sz l :
  Forall P l -> Forall (Forall P) (chunks n sz l).
Proof.
  revert l. induction n as [|n IH]; intros l H; simpl; constructor.
  - now apply Forall_firstn.
  - apply IH. now apply Forall_skipn.
Qed.

Lemma zipWith_diag (A B C D E : Type) (h : C -> D -> E) (f : A -> B -> C)
    (g : A -> B -> D) l m :
  zipWith h (zipWith f l m) (zipWith g l m)
  = zipWith (fun a b => h (f a b) (g a b)) l m.
Proof.
  revert m. induction l as [|a l IH]; intros [|b m]; simpl;
    try reflexivity.
  now rewrite IH.
Qed.

(** Blocks of one element: the reduction is the sum of the sample. *)
Lemma vsum_singletons m c :
  length c = m -> vsum 1 (chunks m 1 c) = [Zsum c].
Proof.
  revert c. induction m as [|m IH]; intros [|a c] H; simpl in *;
    try discriminate; [reflexivity|].
  change (fold_right (zipWith Z.add) [0%Z] (chunks m 1 c))
    with (vsum 1 (chunks m 1 c)).
  rewrite IH by lia. reflexivity.
Qed.

Lemma reduce_blocks_rank3 n m l :
  length l = (n * (m * 1))%nat ->
  reduce_blocks n m 1 l = map Zsum (chunks n (m * 1) l).
Proof.
  intro Hl. unfold reduce_blocks.
  pose proof (chunks_block_length n (m * 1) l Hl) as Hc.
  induction Hc as [|c cs Hc _ IH]; simpl; [reflexivity|].
  rewrite vsum_singletons by lia. now rewrite IH.
Qed.

Lemma Zsum_bits_count (f : bool -> bool -> bool) (op : Z -> Z -> Z) ps ls :
  (forall a b : bool,
      op (if a then 1 else 0)%Z (if b then 1 else 0)%Z
      = (if f a b then 1 else 0)%Z) ->
  Forall (fun l => l = 0 \/ l = 1) ls ->
  Zsum (zipWith op (map binarize ps) (map to_int ls))
  = Z.of_nat (count_pixels f ps ls).
Proof.
  intros Hop Hb. revert ps.
  induction Hb as [|l ls Hl _ IH]; intros [|p ps]; try reflexivity.
  unfold count_pixels in *. simpl.
  rewrite binarize_positive, (to_int_binary Hl), Hop, IH.
  destruct (f (pred_positive p) (label_positive l)); simpl length; lia.
Qed.

(** X1.  On a batch (N, H, W) with 0/1 labels the code computes the mean over
    the batch of the per-sample ratio. *)
Lemma calculate_iou_rank3 preds labels n h w :
  shape preds = [n; h; w]%nat ->
  shape labels = shape preds ->
  wf preds -> wf labels -> binary_labels labels ->
  calculate_iou preds labels = Ok (spec_iou preds labels).
Proof.
  intros Hp Hl Hwp Hwl Hb.
  rewrite (@calculate_iou_eq preds labels n h w [] Hp Hl).
  unfold spec_iou. rewrite Hp. f_equal. f_equal.
  unfold wf in Hwp, Hwl. rewrite Hl in Hwl. rewrite Hp in Hwp, Hwl.
  assert (Hsz : numel [h; w]%nat = (h * w * 1)%nat)
    by (unfold numel; simpl; lia).
  assert (Hn : numel [n; h; w]%nat = (n * (h * w * 1))%nat)
    by (unfold numel; simpl; lia).
  rewrite Hn in Hwp, Hwl. rewrite Hsz.
  change (numel []) with 1%nat.
  assert (Hlen : length (data preds) = length (data labels)) by congruence.
  destruct (and_or_bits_length _ _ Hlen) as [Ha Ho].
  rewrite !reduce_blocks_rank3 by congruence.
  unfold and_bits, or_bits.
  rewrite !chunks_zipWith by (now rewrite !length_map).
  rewrite !chunks_map, !map_zipWith, !zipWith_map_l, !zipWith_map_r.
  rewrite zipWith_diag. apply zipWith_ext.
  intros ps ls _ Hls.
  assert (Hbl : Forall (fun l => l = 0 \/ l = 1) ls).
  { pose proof (Forall_chunks n (h * w * 1) Hb) as Hall.
    rewrite Forall_forall in Hall. now apply Hall. }
  unfold sample_iou, iou_ratio.
  rewrite (@Zsum_bits_count andb Z.land), (@Zsum_bits_count orb Z.lor);
    try assumption; try (now intros [|] [|]).
  now rewrite <- !INR_IZR_INZ.
Qed.
End Rank3.

Section IoUClaims.
Open Scope R_scope.

(** C9, as the code has it.  For predictions and labels of one shape with
    at least three dimensions, 0/1-valued labels and a non-empty reduced
    tensor, the value of [calculate_iou] is a number in (0, 1]; it is 1
    exactly when the binarized predictions are the integer labels at every
    pixel; in particular predictions that are nowhere positive score 1
    against an all-zero mask. *)
Theorem calculate_iou_unit_interval preds labels d0 d1 d2 rest :
  shape preds = d0 :: d1 :: d2 :: rest ->
  shape labels = shape preds ->
  wf preds -> wf labels -> binary_labels labels ->
  (0 < d0 * numel rest)%nat ->
  exists v,
    calculate_iou preds labels = Ok (Xreal v)
    /\ 0 < v <= 1
    /\ (v = 1 <-> map binarize (data preds) = map to_int (data labels))
    /\ (Forall (fun p => p <= 0) (data preds) ->
        Forall (fun l => l = 0) (data labels) -> v = 1).
Proof.
  intros Hp Hl Hwp Hwl Hb Hne.
  rewrite (@calculate_iou_eq preds labels d0 d1 d2 rest Hp Hl).
  destruct (@reduced_counts preds labels d0 d1 d2 rest Hp Hl Hwp Hwl Hb)
    as (HIU & Hlen & Hagree).
  set (I := reduce_blocks d0 (d1 * d2) (numel rest)
              (and_bits (data preds) (data labels))) in *.
  set (U := reduce_blocks d0 (d1 * d2) (numel rest)
              (or_bits (data preds) (data labels))) in *.
  assert (Hnil : zipWith iou_ratio I U <> []).
  { intro Hz. apply (f_equal (@length R)) in Hz.
    rewrite zipWith_length in Hz by (eapply Forall2_length_eq; exact HIU).
    simpl in Hz. lia. }
  destruct (mean_unit Hnil (ratios_unit HIU)) as (v & Hv & Hrange & Hone).
  assert (Hiff : v = 1 <-> map binarize (data preds)
                           = map to_int (data labels)).
  { rewrite Hone, (ratios_all_one HIU). exact Hagree. }
  exists v. rewrite Hv. repeat split; try tauto.
  intros Hneg Hzero. apply Hiff.
  assert (Hlen' : length (data preds) = length (data labels)).
  { unfold wf in Hwp, Hwl. congruence. }
  clear - Hneg Hzero Hlen'. revert Hlen' Hzero.
  generalize (data labels) as ls.
  induction Hneg as [|p ps Hp _ IH]; intros [|l ls] Hlen Hzero;
    simpl in *; try discriminate; [reflexivity|].
  inversion Hzero as [|? ? Hl0 Hls]; subst.
  rewrite binarize_nonpos by assumption.
  rewrite (to_int_IZR 0). f_equal. apply IH; [lia|assumption].
Qed.

Lemma calculate_iou_unit_interval_witness :
  exists v,
    calculate_iou column_preds row_labels = Ok (Xreal v)
    /\ 0 < v <= 1
    /\ (v = 1 <-> map binarize (data column_preds)
                  = map to_int (data row_labels))
    /\ (Forall (fun p => p <= 0) (data column_preds) ->
        Forall (fun l => l = 0) (data row_labels) -> v = 1).
Proof.
  apply (@calculate_iou_unit_interval column_preds row_labels
           1%nat 1%nat 2%nat [2%nat]).
  - reflexivity.
  - reflexivity.
  - reflexivity.
  - reflexivity.
  - unfold binary_labels, row_labels. simpl.
    repeat (apply Forall_cons;
            [(left; reflexivity) || (right; reflexivity)|]).
    apply Forall_nil.
  - simpl. lia.
Defined.

(** C9 as stated fails on a batch without samples: the mean of an empty
    tensor is NaN, which is not in (0, 1]. *)
Lemma calculate_iou_empty_batch :
  shape empty_batch = shape empty_batch
  /\ wf empty_batch
  /\ binary_labels empty_batch
  /\ calculate_iou empty_batch empty_batch = Ok Xnan
  /\ ~ (exists v, calculate_iou empty_batch empty_batch = Ok (Xreal v)
                  /\ 0 < v <= 1).
Proof.
  assert (H : calculate_iou empty_batch empty_batch = Ok Xnan).
  { rewrite (@calculate_iou_eq _ _ 0%nat 1%nat 2%nat [2%nat]) by reflexivity.
    reflexivity. }
  split; [reflexivity|]. split; [reflexivity|].
  split; [constructor|]. split; [exact H|].
  intros (v & Hv & _). rewrite H in Hv. discriminate.
Qed.

(** The code on a batch (1, 1, 2, 2): one ratio per image column. *)
Lemma calculate_iou_column_preds :
  calculate_iou column_preds row_labels
  = Ok (Xreal ((iou_ratio 1 2 + (iou_ratio 0 1 + 0)) / (1 + 1))).
Proof.
  rewrite (@calculate_iou_eq _ _ 1%nat 1%nat 2%nat [2%nat]) by reflexivity.
  unfold and_bits, or_bits, column_preds, row_labels. cbn [data map].
  eval_bits. reflexivity.
Qed.

(** C1 at a batch of the shape that the notebook passes, (N, 1, H, W):
    [sum((1, 2))] reduces the channel and the height, so the code averages
    one ratio per image column (1/2 and 0 up to smoothing, mean below 0.3),
    whereas the per-sample ratio of the claim is 1/3 up to smoothing. *)
Theorem calculate_iou_rank4_per_column :
  calculate_iou column_preds row_labels
  = Ok (Xreal ((iou_ratio 1 2 + (iou_ratio 0 1 + 0)) / (1 + 1)))
  /\ spec_iou column_preds row_labels
     = Xreal (((1 + smooth) / (1 + 1 + 1 + smooth) + 0) / 1)
  /\ (iou_ratio 1 2 + (iou_ratio 0 1 + 0)) / (1 + 1)
     < 3 / 10
     < ((1 + smooth) / (1 + 1 + 1 + smooth) + 0) / 1.
Proof.
  split; [|split].
  - apply calculate_iou_column_preds.
  - unfold spec_iou, column_preds, row_labels. cbn -[sample_iou].
    unfold sample_iou, count_pixels. cbn [zipWith]. eval_bits.
    reflexivity.
  - assert (H1 : iou_ratio 1 2 < 51 / 100).
    { unfold iou_ratio, smooth. apply Rdiv_lt_upper; lra. }
    assert (H2 : iou_ratio 0 1 < 1 / 100).
    { unfold iou_ratio, smooth. apply Rdiv_lt_upper; lra. }
    assert (H3 : 33 / 100 < (1 + smooth) / (1 + 1 + 1 + smooth)).
    { unfold smooth. apply Rdiv_lt_lower; lra. }
    lra.
Qed.
End IoUClaims.

(** ** The focal loss *)

Section FocalFacts.
Open Scope R_scope.

Lemma FocalLoss_forward_eq self inputs targets :
  shape inputs = shape targets ->
  FocalLoss_forward self inputs targets
  = Ok (mean (map (focal_term (alpha self) (gamma self))
                (zipWith bce_with_logits (data inputs) (data targets)))).
Proof.
  intro Hs. unfold FocalLoss_forward, BCEWithLogitsLoss_none, tzip, tmap.
  rewrite Hs, shape_eqb_refl. cbn [bind shape data].
  rewrite shape_eqb_refl. cbn [bind data].
  rewrite !map_map, zipWith_map_l, zipWith_same.
  reflexivity.
Qed.

Lemma modulating_range g b : 0 <= b -> 0 <= (1 - exp (- b)) ^ g <= 1.
Proof.
  intro Hb. pose proof (exp_pos (- b)) as Hp.
  assert (Hle : exp (- b) <= 1).
  { destruct Hb as [Hb | <-].
    - left. rewrite <- exp_0. apply exp_increasing. lra.
    - rewrite Ropp_0, exp_0. lra. }
  split.
  - apply pow_le. lra.
  - apply Rle_trans with (1 ^ g).
    + apply pow_incr. lra.
    + rewrite pow1. lra.
Qed.

Lemma focal_term_range a g b :
  0 <= a -> 0 <= b -> 0 <= focal_term a g b <= a * b.
Proof.
  intros Ha Hb. unfold focal_term.
  pose proof (modulating_range g Hb) as [H0 H1].
  assert (0 <= a * (1 - exp (- b)) ^ g <= a) by nra.
  split; nra.
Qed.

Lemma Rsum_focal a g l :
  0 <= a -> Forall (fun b => 0 <= b) l ->
  0 <= Rsum (map (focal_term a g) l) <= a * Rsum l.
Proof.
  intros Ha. induction 1 as [|b l Hb _ IH]; simpl.
  - lra.
  - pose proof (focal_term_range g Ha Hb). lra.
Qed.

Lemma bce_targets_nonneg xs ys :
  Forall (fun y => 0 <= y <= 1) ys ->
  Forall (fun b => 0 <= b) (zipWith bce_with_logits xs ys).
Proof.
  intro H. revert xs. induction H as [|y ys Hy _ IH]; intros [|x xs];
    simpl; constructor.
  - now apply bce_with_logits_nonneg.
  - apply IH.
Qed.

Lemma softplus_lt_1 x : 0 < x -> ln (1 + exp (- x)) < 1.
Proof.
  intro Hx. pose proof (exp_pos (- x)) as Hp.
  assert (He : exp (- x) < exp 0) by (apply exp_increasing; lra).
  rewrite exp_0 in He.
  assert (H2 : 1 + 1 < exp 1) by (apply exp_ineq1; lra).
  assert (Hlt : ln (1 + exp (- x)) < ln (exp 1))
    by (apply ln_increasing; lra).
  now rewrite ln_exp in Hlt.
Qed.

Lemma bce_out_of_range : bce_with_logits 2 2 < -1.
Proof.
  rewrite bce_with_logits_eq.
  assert (Hlt : ln (1 + exp (- (2))) < 1) by (apply softplus_lt_1; lra).
  lra.
Qed.
End FocalFacts.

Section FocalClaims.
Open Scope R_scope.

(** C2.  On logits and targets of one shape, [FocalLoss.forward] is the
    mean over all elements of [alpha * (1 - exp (-BCE))^gamma * BCE], where
    BCE is the element-wise binary cross-entropy with logits; the instance
    [criterion] has the defaults alpha = 0.25 and gamma = 2, and it is the
    loss that a training step computes. *)
Theorem FocalLoss_forward_spec inputs targets :
  shape inputs = shape targets ->
  (forall self,
      FocalLoss_forward self inputs targets
      = Ok (spec_focal (alpha self) (gamma self) inputs targets))
  /\ FocalLoss_forward criterion inputs targets
     = Ok (spec_focal (25 / 100) 2 inputs targets)
  /\ (forall (params grads ostate : Type)
             (st : state params grads ostate),
         criterion_call st inputs targets
         = Ok (spec_focal (25 / 100) 2 inputs targets,
               log (LossComputation targets) st)).
Proof.
  intro Hs.
  assert (H : forall self,
             FocalLoss_forward self inputs targets
             = Ok (spec_focal (alpha self) (gamma self) inputs targets)).
  { intro self. rewrite FocalLoss_forward_eq by assumption.
    unfold spec_focal. now rewrite map_zipWith. }
  split; [exact H|]. split; [apply (H criterion)|].
  intros params grads ostate st. unfold criterion_call.
  now rewrite (H criterion).
Qed.

Lemma FocalLoss_forward_spec_witness :
  (forall self,
      FocalLoss_forward self column_preds row_labels
      = Ok (spec_focal (alpha self) (gamma self) column_preds row_labels))
  /\ FocalLoss_forward criterion column_preds row_labels
     = Ok (spec_focal (25 / 100) 2 column_preds row_labels)
  /\ (forall (params grads ostate : Type)
             (st : state params grads ostate),
         criterion_call st column_preds row_labels
         = Ok (spec_focal (25 / 100) 2 column_preds row_labels,
               log (LossComputation row_labels) st)).
Proof.
  apply (@FocalLoss_forward_spec column_preds row_labels).
  reflexivity.
Defined.

(** C7, as the code has it.  For a nonnegative alpha, non-empty logits and
    targets of one shape, and targets in [0, 1] (as the masks are), every
    element-wise loss is nonnegative, every modulating factor lies in
    [0, 1], and the focal loss lies between 0 and alpha times the mean of
    the element-wise losses. *)
Theorem FocalLoss_forward_bounds self inputs targets :
  shape inputs = shape targets ->
  wf inputs -> wf targets ->
  data inputs <> [] ->
  Forall (fun y => 0 <= y <= 1) (data targets) ->
  0 <= alpha self ->
  exists B v m,
    BCEWithLogitsLoss_none inputs targets = Ok B
    /\ Forall (fun b => 0 <= b /\ 0 <= (1 - exp (- b)) ^ gamma self <= 1)
         (data B)
    /\ FocalLoss_forward self inputs targets = Ok (Xreal v)
    /\ mean (data B) = Xreal m
    /\ 0 <= v <= alpha self * m.
Proof.
  intros Hs Hwi Hwt Hne Hy Ha.
  set (l := zipWith bce_with_logits (data inputs) (data targets)).
  assert (Hlen : length l = length (data inputs)).
  { unfold l. apply zipWith_length. unfold wf in *. congruence. }
  assert (Hl : Forall (fun b => 0 <= b) l)
    by (now apply bce_targets_nonneg).
  exists (mkTensor (shape inputs) l),
         (Rsum (map (focal_term (alpha self) (gamma self)) l)
          / INR (length l)),
         (Rsum l / INR (length l)).
  assert (Hnil : l <> []).
  { intro E. rewrite E in Hlen. destruct (data inputs);
      [contradiction|discriminate]. }
  assert (Hn : 0 < INR (length l)).
  { apply lt_0_INR. destruct l; [contradiction|simpl; lia]. }
  split; [|split; [|split; [|split]]].
  - unfold BCEWithLogitsLoss_none. now rewrite Hs, shape_eqb_refl.
  - cbn [data]. eapply Forall_impl; [|exact Hl].
    intros b Hb. split; [assumption|]. now apply modulating_range.
  - rewrite FocalLoss_forward_eq by assumption. fold l.
    now rewrite mean_map_nonempty.
  - cbn [data]. now apply mean_nonempty.
  - pose proof (Rsum_focal (gamma self) Ha Hl) as [H0 H1].
    split.
    + apply Rmult_le_pos; [assumption|].
      left. now apply Rinv_0_lt_compat.
    + unfold Rdiv. rewrite <- Rmult_assoc.
      apply Rmult_le_compat_r; [|assumption].
      left. now apply Rinv_0_lt_compat.
Qed.

Lemma FocalLoss_forward_bounds_witness :
  exists B v m,
    BCEWithLogitsLoss_none column_preds row_labels = Ok B
    /\ Forall (fun b => 0 <= b /\ 0 <= (1 - exp (- b)) ^ gamma criterion <= 1)
         (data B)
    /\ FocalLoss_forward criterion column_preds row_labels = Ok (Xreal v)
    /\ mean (data B) = Xreal m
    /\ 0 <= v <= alpha criterion * m.
Proof.
  apply (@FocalLoss_forward_bounds criterion column_preds row_labels).
  - reflexivity.
  - reflexivity.
  - reflexivity.
  - discriminate.
  - simpl. repeat (apply Forall_cons; [lra|]). apply Forall_nil.
  - simpl. lra.
Defined.

(** C7 as stated fails for a target outside [0, 1]: the element-wise loss
    is negative there, and so is the focal loss. *)
Lemma FocalLoss_forward_negative :
  shape out_of_range = shape out_of_range
  /\ exists v,
       FocalLoss_forward criterion out_of_range out_of_range = Ok (Xreal v)
       /\ v < 0.
Proof.
  split; [reflexivity|].
  exists ((focal_term (25 / 100) 2 (bce_with_logits 2 2) + 0) / 1).
  split.
  - rewrite FocalLoss_forward_eq by reflexivity. reflexivity.
  - pose proof bce_out_of_range as Hb.
    set (b := bce_with_logits 2 2) in *.
    assert (He : 1 < exp (- b)).
    { rewrite <- exp_0. apply exp_increasing. lra. }
    unfold focal_term. simpl pow.
    assert (Hsq : 0 < (1 - exp (- b)) * ((1 - exp (- b)) * 1)) by nra.
    nra.
Qed.
End FocalClaims.

(** ** Shapes of the layers *)

Ltac divmod a b :=
  pose proof (Nat.div_mod_eq a b);
  pose proof (Nat.mod_upper_bound a b ltac:(lia)).

Section LayerShapes.

Lemma conv_out_3_1_1 h : conv_out 3 1 1 h = h.
Proof. unfold conv_out. rewrite Z.div_1_r. lia. Qed.

Lemma conv_out_1_1_0 h : conv_out 1 1 0 h = h.
Proof. unfold conv_out. rewrite Z.div_1_r. lia. Qed.

Lemma convT_out_double m : convT_out 2 2 0 m = 2 * m.
Proof. unfold convT_out. lia. Qed.

Lemma pool_out_half h : pool_out 2 h = h / 2.
Proof.
  unfold pool_out.
  replace (Z.of_nat h - (2 - 1) - 1)%Z with (Z.of_nat h + (-1) * 2)%Z by lia.
  rewrite Z.div_add by lia.
  replace (Z.of_nat h / 2 + -1 + 1)%Z with (Z.of_nat h / 2)%Z by lia.
  change 2%Z with (Z.of_nat 2). rewrite <- Nat2Z.inj_div. apply Nat2Z.id.
Qed.

Lemma conv_fits_3_1 h : 0 < h -> conv_fits 3 1 h = true.
Proof. intro H. unfold conv_fits. apply Z.leb_le. lia. Qed.

Lemma conv_fits_1_0 h : 0 < h -> conv_fits 1 0 h = true.
Proof. intro H. unfold conv_fits. apply Z.leb_le. lia. Qed.

Lemma pool_fits_2 h : 2 <= h -> pool_fits 2 h = true.
Proof. intro H. unfold pool_fits. apply Z.leb_le. lia. Qed.

Lemma convT_fits_2_2_0 h : 0 < h -> convT_fits 2 2 0 h = true.
Proof. intro H. unfold convT_fits. apply Z.leb_le. lia. Qed.

Lemma seq_shape_app ls1 ls2 s s' :
  seq_shape ls1 s = Ok s' ->
  seq_shape (ls1 ++ ls2) s = seq_shape ls2 s'.
Proof.
  revert s. induction ls1 as [|l ls1 IH]; intros s H; simpl in *.
  - now injection H as ->.
  - destruct (layer_shape l s) as [s1|e]; simpl in *; [|discriminate].
    now apply IH.
Qed.

Lemma seq_shape_CBR n i o h w :
  0 < h -> 0 < w ->
  seq_shape (CBR i o) [n; i; h; w] = Ok [n; o; h; w].
Proof.
  intros Hh Hw. unfold CBR. cbn [seq_shape layer_shape].
  rewrite Nat.eqb_refl, !conv_fits_3_1 by assumption.
  cbn [andb bind seq_shape layer_shape].
  rewrite Nat.eqb_refl. cbn [bind].
  now rewrite !conv_out_3_1_1.
Qed.

Lemma seq_shape_encoder n i o h w :
  2 <= h -> 2 <= w ->
  seq_shape (encoder i o) [n; i; h; w] = Ok [n; o; h / 2; w / 2].
Proof.
  intros Hh Hw. unfold encoder.
  rewrite (@seq_shape_app _ _ _ _ (@seq_shape_CBR n i o h w ltac:(lia)
                                     ltac:(lia))).
  rewrite (@seq_shape_app _ _ _ _ (@seq_shape_CBR n o o h w ltac:(lia)
                                     ltac:(lia))).
  cbn [seq_shape layer_shape].
  rewrite !pool_fits_2 by assumption. cbn [andb bind].
  now rewrite !pool_out_half.
Qed.

Lemma seq_shape_decoder n i o h w :
  0 < h -> 0 < w ->
  seq_shape (decoder i o) [n; i; h; w] = Ok [n; o; 2 * h; 2 * w].
Proof.
  intros Hh Hw. unfold decoder. cbn [app seq_shape layer_shape].
  rewrite Nat.eqb_refl, !convT_fits_2_2_0 by assumption.
  cbn [andb bind]. rewrite !convT_out_double.
  rewrite (@seq_shape_app _ _ _ _ (@seq_shape_CBR n o o (2 * h) (2 * w)
                                     ltac:(lia) ltac:(lia))).
  apply seq_shape_CBR; lia.
Qed.

Lemma seq_shape_bottleneck n h w :
  0 < h -> 0 < w ->
  seq_shape (CBR 512 1024 ++ CBR 1024 1024 ++ CBR 1024 1024) [n; 512; h; w]
  = Ok [n; 1024; h; w].
Proof.
  intros Hh Hw.
  rewrite (@seq_shape_app _ _ _ _ (@seq_shape_CBR n 512 1024 h w Hh Hw)).
  rewrite (@seq_shape_app _ _ _ _ (@seq_shape_CBR n 1024 1024 h w Hh Hw)).
  now apply seq_shape_CBR.
Qed.

Lemma layer_shape_final n h w :
  0 < h -> 0 < w ->
  layer_shape (Conv2d 128 1 1 1 0) [n; 128; h; w] = Ok [n; 1; h; w].
Proof.
  intros Hh Hw. cbn [layer_shape].
  rewrite Nat.eqb_refl, !conv_fits_1_0 by assumption. cbn [andb].
  now rewrite !conv_out_1_1_0.
Qed.

(** The sizes of the planes along the encoder. *)
Lemma sizes_16 H :
  16 <= H ->
  2 <= H / 2 /\ 2 <= H / 2 / 2 /\ 2 <= H / 2 / 2 / 2
  /\ 0 < H / 2 / 2 / 2 / 2
  /\ H / 2 / 2 = H / 4 /\ H / 2 / 2 / 2 = H / 8
  /\ H / 2 / 2 / 2 / 2 = H / 16.
Proof.
  intro HH.
  divmod H 2. divmod (H / 2) 2. divmod (H / 2 / 2) 2.
  divmod (H / 2 / 2 / 2) 2. divmod H 4. divmod H 8. divmod H 16.
  repeat split; lia.
Qed.

Lemma half_halves k : k / 2 + (k + 1) / 2 = k.
Proof. divmod k 2. divmod (k + 1) 2. lia. Qed.

Lemma sixteen_divides H : 16 * (H / 16) = H <-> Nat.divide 16 H.
Proof.
  split.
  - intro E. exists (H / 16). lia.
  - intros [k ->]. rewrite Nat.div_mul by lia. lia.
Qed.

Lemma divide_16 H : Nat.divide 16 H ->
  2 * (H / 16) = H / 8 /\ 4 * (H / 16) = H / 4 /\ 8 * (H / 16) = H / 2
  /\ 16 * (H / 16) = H.
Proof.
  intros [h ->].
  assert (E16 : h * 16 / 16 = h) by (apply Nat.div_mul; lia).
  assert (E8 : h * 16 / 8 = 2 * h)
    by (symmetry; apply Nat.div_unique with 0; lia).
  assert (E4 : h * 16 / 4 = 4 * h)
    by (symmetry; apply Nat.div_unique with 0; lia).
  assert (E2 : h * 16 / 2 = 8 * h)
    by (symmetry; apply Nat.div_unique with 0; lia).
  rewrite E16, E8, E4, E2. lia.
Qed.

(** The decoder maps have the sizes of the encoder maps exactly when the
    side leaves a remainder of at most 1 modulo 16. *)
Lemma planes_match H :
  (2 * (H / 16) = H / 8 /\ 4 * (H / 16) = H / 4 /\ 8 * (H / 16) = H / 2)
  <-> H mod 16 <= 1.
Proof.
  divmod H 2. divmod H 4. divmod H 8. divmod H 16. split.
  - intros (A8 & A4 & A2). lia.
  - intro Hr. repeat split; lia.
Qed.

Lemma round_half_0 : round_half 0 = 0.
Proof. reflexivity. Qed.

Lemma round_half_le d : round_half d <= d.
Proof.
  unfold round_half. cbv zeta. divmod d 2.
  destruct (Nat.even d); [lia|].
  destruct (d / 2) as [|q] eqn:E; [simpl; lia|].
  destruct (Nat.even (S q)); lia.
Qed.

(** A window of the size of the axis is the axis. *)
Lemma center_crop_axis_same (X : Type) (fill : X) l :
  center_crop_axis (length l) fill l = l.
Proof.
  unfold center_crop_axis. rewrite Nat.ltb_irrefl, Nat.sub_diag.
  rewrite round_half_0. simpl skipn. apply firstn_all.
Qed.

Lemma center_crop_axis_length (X : Type) size (fill : X) l :
  length (center_crop_axis size fill l) = size.
Proof.
  unfold center_crop_axis. cbv zeta.
  set (l' := if length l <? size then _ else l).
  assert (Hl : size <= length l').
  { unfold l'. destruct (Nat.ltb_spec (length l) size) as [Hlt | Hge];
      [|exact Hge].
    rewrite !length_app, !repeat_length.
    pose proof (half_halves (size - length l)). lia. }
  pose proof (round_half_le (length l' - size)).
  rewrite length_firstn, length_skipn. lia.
Qed.

Lemma center_crop_axis_Forall (X : Type) (P : X -> Prop) size fill l :
  P fill -> Forall P l -> Forall P (center_crop_axis size fill l).
Proof.
  intros Hf Hl. unfold center_crop_axis. cbv zeta.
  apply Forall_firstn, Forall_skipn.
  destruct (length l <? size); [|exact Hl].
  repeat (apply Forall_app; split); try assumption;
    apply Forall_forall; intros x Hx; apply repeat_spec in Hx; now subst.
Qed.

Lemma concat_length_const (X : Type) k (ls : list (list X)) :
  Forall (fun x => length x = k) ls -> length (concat ls) = length ls * k.
Proof.
  induction 1 as [|x ls Hx _ IH]; simpl; [reflexivity|].
  rewrite length_app, IH, Hx. reflexivity.
Qed.

(** No layer refuses in eval mode. *)
Lemma refuses_eval l s : refuses false l s = None.
Proof. destruct l; try reflexivity. destruct s as [|n [|c [|h [|w [|]]]]]; reflexivity. Qed.

Lemma seq_refuses_app tr ls1 ls2 s s' :
  seq_refuses tr ls1 s = None -> seq_shape ls1 s = Ok s' ->
  seq_refuses tr (ls1 ++ ls2) s = seq_refuses tr ls2 s'.
Proof.
  revert s. induction ls1 as [|l ls1 IH]; intros s Hr Hs; simpl in *.
  - now injection Hs as ->.
  - destruct (refuses tr l s); [discriminate|].
    destruct (layer_shape l s) as [s1|e]; simpl in *; [|discriminate].
    now apply IH.
Qed.

Lemma seq_refuses_CBR tr n i o h w :
  0 < h -> 0 < w -> tr = false \/ n * h * w <> 1 ->
  seq_refuses tr (CBR i o) [n; i; h; w] = None.
Proof.
  intros Hh Hw Hm. unfold CBR. cbn [seq_refuses refuses layer_shape].
  rewrite Nat.eqb_refl, !conv_fits_3_1 by assumption. cbn [andb].
  rewrite !conv_out_3_1_1, Nat.eqb_refl.
  assert (E : tr && Nat.eqb (n * h * w) 1 = false).
  { destruct Hm as [-> | Hne]; [reflexivity|].
    apply Nat.eqb_neq in Hne. rewrite Hne. apply andb_false_r. }
  rewrite E. reflexivity.
Qed.

Lemma several_values m w : 2 <= w -> m * w <> 1.
Proof. intro H. destruct m as [|m]; simpl; lia. Qed.

Lemma seq_refuses_encoder tr n i o h w :
  2 <= h -> 2 <= w ->
  seq_refuses tr (encoder i o) [n; i; h; w] = None.
Proof.
  intros Hh Hw. unfold encoder.
  assert (Hm : tr = false \/ n * h * w <> 1)
    by (right; now apply several_values).
  rewrite (@seq_refuses_app tr _ _ _ [n; o; h; w]);
    [|apply seq_refuses_CBR; (lia || assumption)
     |apply seq_shape_CBR; lia].
  rewrite (@seq_refuses_app tr _ _ _ [n; o; h; w]);
    [|apply seq_refuses_CBR; (lia || assumption)
     |apply seq_shape_CBR; lia].
  cbn [seq_refuses refuses].
  destruct (layer_shape (MaxPool2d 2) [n; o; h; w]); reflexivity.
Qed.

Lemma seq_refuses_decoder tr n i o h w :
  0 < h -> 0 < w ->
  seq_refuses tr (decoder i o) [n; i; h; w] = None.
Proof.
  intros Hh Hw. unfold decoder. cbn [app seq_refuses refuses layer_shape].
  rewrite Nat.eqb_refl, !convT_fits_2_2_0 by assumption. cbn [andb].
  rewrite !convT_out_double.
  assert (Hm : tr = false \/ n * (2 * h) * (2 * w) <> 1)
    by (right; apply several_values; lia).
  rewrite (@seq_refuses_app tr _ _ _ [n; o; 2 * h; 2 * w]);
    [|apply seq_refuses_CBR; (lia || assumption)
     |apply seq_shape_CBR; lia].
  apply seq_refuses_CBR; (lia || assumption).
Qed.

Lemma seq_refuses_bottleneck tr n h w :
  0 < h -> 0 < w -> tr = false \/ n * h * w <> 1 ->
  seq_refuses tr (CBR 512 1024 ++ CBR 1024 1024 ++ CBR 1024 1024)
    [n; 512; h; w] = None.
Proof.
  intros Hh Hw Hm.
  rewrite (@seq_refuses_app tr _ _ _ [n; 1024; h; w]);
    [|now apply seq_refuses_CBR|now apply seq_shape_CBR].
  rewrite (@seq_refuses_app tr _ _ _ [n; 1024; h; w]);
    [|now apply seq_refuses_CBR|now apply seq_shape_CBR].
  now apply seq_refuses_CBR.
Qed.
End LayerShapes.

(** ** The forward pass *)

Section Forward.
Variable A : Type.
Variable zero : A.
Variable kernel : layer -> tensor A -> list A.

(** The framework's contract: on a well-formed input a layer yields as
    many elements as its output shape has. *)
Hypothesis kernel_length :
  forall l t s, wf t -> layer_shape l (shape t) = Ok s ->
                length (kernel l t) = numel s.

Lemma run_produces ls t s s' :
  shape t = s -> wf t -> seq_shape ls s = Ok s' ->
  exists t', produces (run kernel ls t) t' s'.
Proof.
  revert t s. induction ls as [|l ls IH]; intros t s Hs Hw H; simpl in *.
  - injection H as <-. exists t. now repeat split.
  - unfold run_layer. rewrite Hs.
    destruct (layer_shape l s) as [s1|e] eqn:El; simpl in *; [|discriminate].
    apply (IH (mkTensor s1 (kernel l t)) s1); [reflexivity| |assumption].
    unfold wf. simpl. apply kernel_length; [assumption|]. now rewrite Hs.
Qed.

Lemma run_layer_produces l t s s' :
  shape t = s -> wf t -> layer_shape l s = Ok s' ->
  exists t', produces (run_layer kernel l t) t' s'.
Proof.
  intros Hs Hw H. unfold run_layer. rewrite Hs, H. simpl.
  eexists. repeat split. unfold wf. simpl.
  apply kernel_length; [assumption|]. now rewrite Hs.
Qed.

(** Cropping to the size that the planes already have changes nothing. *)
Lemma CenterCrop_same t n c h w :
  shape t = [n; c; h; w] -> wf t -> CenterCrop zero h w t = Ok t.
Proof.
  intros Hs Hw. unfold CenterCrop. rewrite Hs.
  unfold wf in Hw. rewrite Hs in Hw.
  assert (Hlen : length (data t) = n * c * (h * w))
    by (rewrite Hw; unfold numel; simpl; lia).
  assert (Hd : concat
                 (map (fun plane =>
                         concat (center_crop_axis h (repeat zero w)
                                   (map (center_crop_axis w zero)
                                      (chunks h w plane))))
                    (chunks (n * c) (h * w) (data t)))
               = data t).
  { rewrite <- (concat_chunks (n * c) (h * w) (data t) Hlen) at 2.
    f_equal.
    pose proof (chunks_block_length (n * c) (h * w) (data t) Hlen) as Hc.
    induction Hc as [|p ps Hp _ IH]; simpl; [reflexivity|].
    rewrite IH. f_equal.
    assert (Hrows : map (center_crop_axis w zero) (chunks h w p)
                    = chunks h w p).
    { pose proof (chunks_block_length h w p Hp) as Hr.
      induction Hr as [|r rs Hr _ IHr]; simpl; [reflexivity|].
      rewrite IHr. f_equal.
      rewrite <- Hr at 1. apply center_crop_axis_same. }
    rewrite Hrows.
    rewrite <- (chunks_length h w p) at 1.
    rewrite center_crop_axis_same. now apply concat_chunks. }
  rewrite Hd. destruct t as [s d]. simpl in *. now subst s.
Qed.

(** The crop returns planes of the requested size whatever the size of the
    planes it is given. *)
Lemma CenterCrop_produces (t : tensor A) n c h w H W :
  shape t = [n; c; h; w] ->
  exists t', produces (CenterCrop zero H W t) t' [n; c; H; W].
Proof.
  intro Hs. unfold CenterCrop. rewrite Hs.
  eexists. split; [reflexivity|]. split; [reflexivity|].
  unfold wf. cbn [shape data].
  rewrite (@concat_length_const A (H * W)).
  - rewrite length_map, chunks_length. unfold numel. simpl. lia.
  - apply Forall_map, Forall_forall. intros plane _.
    rewrite (@concat_length_const A W).
    + now rewrite center_crop_axis_length.
    + apply center_crop_axis_Forall; [apply repeat_length|].
      apply Forall_map, Forall_forall. intros row _.
      apply center_crop_axis_length.
Qed.

Lemma concat_zipWith_app_length (xs ys : list (list A)) n s1 s2 :
  length xs = n -> length ys = n ->
  Forall (fun x => length x = s1) xs ->
  Forall (fun y => length y = s2) ys ->
  length (concat (zipWith (@app A) xs ys)) = n * (s1 + s2).
Proof.
  intros Hx Hy Fx. revert ys n Hx Hy.
  induction Fx as [|x xs Hx1 _ IH]; intros ys n Hx Hy Fy; simpl in *.
  - subst n. reflexivity.
  - destruct Fy as [|y ys Hy1 Fy]; simpl in *; [lia|].
    destruct n as [|n]; [discriminate|].
    rewrite !length_app, (IH ys n) by (auto; lia). lia.
Qed.

Lemma cat_channels_produces (a b : tensor A) n c1 c2 h w :
  shape a = [n; c1; h; w] -> wf a ->
  shape b = [n; c2; h; w] -> wf b ->
  exists t, produces (cat_channels a b) t [n; c1 + c2; h; w].
Proof.
  intros Ha Hwa Hb Hwb. unfold cat_channels. rewrite Ha, Hb.
  rewrite !Nat.eqb_refl. simpl andb. cbv iota.
  eexists. repeat split. unfold wf. cbn [data shape].
  unfold wf in Hwa, Hwb. rewrite Ha in Hwa. rewrite Hb in Hwb.
  assert (Hla : length (data a) = n * (c1 * h * w))
    by (rewrite Hwa; unfold numel; simpl; lia).
  assert (Hlb : length (data b) = n * (c2 * h * w))
    by (rewrite Hwb; unfold numel; simpl; lia).
  rewrite (@concat_zipWith_app_length _ _ n (c1 * h * w) (c2 * h * w)).
  - unfold numel. simpl. lia.
  - apply chunks_length.
  - apply chunks_length.
  - now apply chunks_block_length.
  - now apply chunks_block_length.
Qed.

(** A skip connection between feature maps of one batch size. *)
Lemma crop_and_concat_crops (up down : tensor A) n c1 c2 H W h w :
  shape up = [n; c1; H; W] -> wf up ->
  shape down = [n; c2; h; w] ->
  exists k c,
    produces (CenterCrop zero H W down) k [n; c2; H; W]
    /\ produces (cat_channels up k) c [n; c1 + c2; H; W]
    /\ crop_and_concat zero up down = Ok c.
Proof.
  intros Hu Hwu Hd.
  destruct (@CenterCrop_produces down n c2 h w H W Hd)
    as (k & Hk & Hsk & Hwk).
  destruct (@cat_channels_produces up k n c1 c2 H W Hu Hwu Hsk Hwk)
    as (c & Hc & Hsc & Hwc).
  exists k, c. repeat split; try assumption.
  unfold crop_and_concat. rewrite Hu, Hk. exact Hc.
Qed.

(** Calls in a mode in which no layer refuses are the plain computation. *)
Lemma Sequential_call_run tr ls t :
  seq_refuses tr ls (shape t) = None ->
  Sequential_call tr kernel ls t = run kernel ls t.
Proof.
  revert t. induction ls as [|l ls IH]; intros t H; [reflexivity|].
  cbn [seq_refuses Sequential_call run] in *. unfold layer_call.
  destruct (refuses tr l (shape t)); [discriminate|].
  unfold run_layer in *.
  destruct (layer_shape l (shape t)) as [s1|e]; cbn [bind]; [|reflexivity].
  now apply IH.
Qed.

Lemma layer_call_Conv2d tr i o k st p t :
  layer_call tr kernel (Conv2d i o k st p) t
  = run_layer kernel (Conv2d i o k st p) t.
Proof. reflexivity. Qed.

(** In eval mode the calls are the plain computation: [UNet_forward] is
    [model(x)] after [model.eval()]. *)
Lemma layer_call_eval l t : layer_call false kernel l t = run_layer kernel l t.
Proof. unfold layer_call. now rewrite refuses_eval. Qed.

Lemma Sequential_call_eval ls t :
  Sequential_call false kernel ls t = run kernel ls t.
Proof.
  revert t. induction ls as [|l ls IH]; intro t; [reflexivity|].
  cbn [Sequential_call run]. rewrite layer_call_eval.
  destruct (run_layer kernel l t); cbn [bind]; [apply IH|reflexivity].
Qed.

Lemma UNet_call_eval self x :
  UNet_call false zero kernel self x = UNet_forward zero kernel self x.
Proof.
  unfold UNet_call, UNet_forward.
  repeat (rewrite ?Sequential_call_eval, ?layer_call_eval;
          match goal with
          | |- bind ?c _ = bind ?c _ =>
              destruct c; cbn [bind]; [|reflexivity]
          end).
  apply layer_call_eval.
Qed.
End Forward.

Ltac model_layers :=
  change (enc1 model) with (encoder 3 64) in *;
  change (enc2 model) with (encoder 64 128) in *;
  change (enc3 model) with (encoder 128 256) in *;
  change (enc4 model) with (encoder 256 512) in *;
  change (bottleneck model)
    with (CBR 512 1024 ++ CBR 1024 1024 ++ CBR 1024 1024) in *;
  change (dec1 model) with (decoder 1536 1024) in *;
  change (dec2 model) with (decoder (1024 + 256) 512) in *;
  change (dec3 model) with (decoder (512 + 128) 256) in *;
  change (dec4 model) with (decoder (256 + 64) 128) in *;
  change (final model) with (Conv2d 128 1 1 1 0) in *.

Section ForwardStages.
Variable A : Type.
Variable zero : A.
Variable kernel : layer -> tensor A -> list A.
Hypothesis kernel_length :
  forall l t s, wf t -> layer_shape l (shape t) = Ok s ->
                length (kernel l t) = numel s.

(** Every stage of the computation on a batch (N, 3, H, W) of planes of at
    least 16 x 16 pixels. *)
Lemma UNet_forward_stages x N H W :
  shape x = [N; 3; H; W] -> wf x -> 16 <= H -> 16 <= W ->
  exists e1 e2 e3 e4 b k1 c1 d1 k2 c2 d2 k3 c3 d3 k4 c4 d4 y,
    produces (run kernel (enc1 model) x) e1 [N; 64; H / 2; W / 2]
    /\ produces (run kernel (enc2 model) e1) e2 [N; 128; H / 4; W / 4]
    /\ produces (run kernel (enc3 model) e2) e3 [N; 256; H / 8; W / 8]
    /\ produces (run kernel (enc4 model) e3) e4 [N; 512; H / 16; W / 16]
    /\ produces (run kernel (bottleneck model) e4) b
         [N; 1024; H / 16; W / 16]
    /\ produces (CenterCrop zero (H / 16) (W / 16) e4) k1
         [N; 512; H / 16; W / 16]
    /\ produces (cat_channels b k1) c1 [N; 1536; H / 16; W / 16]
    /\ crop_and_concat zero b e4 = Ok c1
    /\ produces (run kernel (dec1 model) c1) d1
         [N; 1024; 2 * (H / 16); 2 * (W / 16)]
    /\ produces (CenterCrop zero (2 * (H / 16)) (2 * (W / 16)) e3) k2
         [N; 256; 2 * (H / 16); 2 * (W / 16)]
    /\ produces (cat_channels d1 k2) c2
         [N; 1280; 2 * (H / 16); 2 * (W / 16)]
    /\ crop_and_concat zero d1 e3 = Ok c2
    /\ produces (run kernel (dec2 model) c2) d2
         [N; 512; 4 * (H / 16); 4 * (W / 16)]
    /\ produces (CenterCrop zero (4 * (H / 16)) (4 * (W / 16)) e2) k3
         [N; 128; 4 * (H / 16); 4 * (W / 16)]
    /\ produces (cat_channels d2 k3) c3
         [N; 640; 4 * (H / 16); 4 * (W / 16)]
    /\ crop_and_concat zero d2 e2 = Ok c3
    /\ produces (run kernel (dec3 model) c3) d3
         [N; 256; 8 * (H / 16); 8 * (W / 16)]
    /\ produces (CenterCrop zero (8 * (H / 16)) (8 * (W / 16)) e1) k4
         [N; 64; 8 * (H / 16); 8 * (W / 16)]
    /\ produces (cat_channels d3 k4) c4
         [N; 320; 8 * (H / 16); 8 * (W / 16)]
    /\ crop_and_concat zero d3 e1 = Ok c4
    /\ produces (run kernel (dec4 model) c4) d4
         [N; 128; 16 * (H / 16); 16 * (W / 16)]
    /\ produces (run_layer kernel (final model) d4) y
         [N; 1; 16 * (H / 16); 16 * (W / 16)]
    /\ UNet_forward zero kernel model x = Ok y.
Proof.
  intros Hx Hwx HH HW.
  destruct (sizes_16 HH) as (Hh1 & Hh2 & Hh3 & Hh4 & Eh4 & Eh8 & Eh16).
  destruct (sizes_16 HW) as (Hw1 & Hw2 & Hw3 & Hw4 & Ew4 & Ew8 & Ew16).
  assert (HH2 : 2 <= H) by lia. assert (HW2 : 2 <= W) by lia.
  destruct (@run_produces A kernel kernel_length (encoder 3 64) _ _ _ Hx Hwx
              (@seq_shape_encoder N 3 64 H W HH2 HW2))
    as (e1 & He1 & Hs1 & Hw1').
  destruct (@run_produces A kernel kernel_length (encoder 64 128) _ _ _
              Hs1 Hw1' (@seq_shape_encoder N 64 128 _ _ Hh1 Hw1))
    as (e2 & He2 & Hs2 & Hw2').
  destruct (@run_produces A kernel kernel_length (encoder 128 256) _ _ _
              Hs2 Hw2' (@seq_shape_encoder N 128 256 _ _ Hh2 Hw2))
    as (e3 & He3 & Hs3 & Hw3').
  destruct (@run_produces A kernel kernel_length (encoder 256 512) _ _ _
              Hs3 Hw3' (@seq_shape_encoder N 256 512 _ _ Hh3 Hw3))
    as (e4 & He4 & Hs4 & Hw4').
  rewrite Eh4, Ew4 in *. rewrite Eh8, Ew8 in *. rewrite Eh16, Ew16 in *.
  set (h := H / 16) in *. set (w := W / 16) in *.
  destruct (@run_produces A kernel kernel_length
              (CBR 512 1024 ++ CBR 1024 1024 ++ CBR 1024 1024) _ _ _
              Hs4 Hw4' (@seq_shape_bottleneck N _ _ Hh4 Hw4))
    as (b & Hb & Hsb & Hwb).
  destruct (@crop_and_concat_crops A zero b e4 _ _ _ _ _ _ _ Hsb Hwb Hs4)
    as (k1 & c1 & Hk1 & Hc1 & Hcc1).
  change (1024 + 512) with 1536 in Hc1.
  destruct (@run_produces A kernel kernel_length (decoder 1536 1024) _ _ _
              (proj1 (proj2 Hc1)) (proj2 (proj2 Hc1))
              (@seq_shape_decoder N 1536 1024 _ _ Hh4 Hw4))
    as (d1 & Hd1 & Hsd1 & Hwd1).
  destruct (@crop_and_concat_crops A zero d1 e3 _ _ _ _ _ _ _ Hsd1 Hwd1 Hs3)
    as (k2 & c2 & Hk2 & Hc2 & Hcc2).
  assert (Hh5 : 0 < 2 * h) by lia. assert (Hw5 : 0 < 2 * w) by lia.
  destruct (@run_produces A kernel kernel_length
              (decoder (1024 + 256) 512) _ _ _
              (proj1 (proj2 Hc2)) (proj2 (proj2 Hc2))
              (@seq_shape_decoder N (1024 + 256) 512 _ _ Hh5 Hw5))
    as (d2 & Hd2 & Hsd2 & Hwd2).
  replace (2 * (2 * h)) with (4 * h) in * by lia.
  replace (2 * (2 * w)) with (4 * w) in * by lia.
  destruct (@crop_and_concat_crops A zero d2 e2 _ _ _ _ _ _ _ Hsd2 Hwd2 Hs2)
    as (k3 & c3 & Hk3 & Hc3 & Hcc3).
  assert (Hh6 : 0 < 4 * h) by lia. assert (Hw6 : 0 < 4 * w) by lia.
  destruct (@run_produces A kernel kernel_length
              (decoder (512 + 128) 256) _ _ _
              (proj1 (proj2 Hc3)) (proj2 (proj2 Hc3))
              (@seq_shape_decoder N (512 + 128) 256 _ _ Hh6 Hw6))
    as (d3 & Hd3 & Hsd3 & Hwd3).
  replace (2 * (4 * h)) with (8 * h) in * by lia.
  replace (2 * (4 * w)) with (8 * w) in * by lia.
  destruct (@crop_and_concat_crops A zero d3 e1 _ _ _ _ _ _ _ Hsd3 Hwd3 Hs1)
    as (k4 & c4 & Hk4 & Hc4 & Hcc4).
  assert (Hh7 : 0 < 8 * h) by lia. assert (Hw7 : 0 < 8 * w) by lia.
  destruct (@run_produces A kernel kernel_length
              (decoder (256 + 64) 128) _ _ _
              (proj1 (proj2 Hc4)) (proj2 (proj2 Hc4))
              (@seq_shape_decoder N (256 + 64) 128 _ _ Hh7 Hw7))
    as (d4 & Hd4 & Hsd4 & Hwd4).
  replace (2 * (8 * h)) with (16 * h) in * by lia.
  replace (2 * (8 * w)) with (16 * w) in * by lia.
  assert (Hh8 : 0 < 16 * h) by lia. assert (Hw8 : 0 < 16 * w) by lia.
  destruct (@run_layer_produces A kernel kernel_length (Conv2d 128 1 1 1 0)
              _ _ _ Hsd4 Hwd4 (@layer_shape_final N _ _ Hh8 Hw8))
    as (y & Hy).
  exists e1, e2, e3, e4, b, k1, c1, d1, k2, c2, d2, k3, c3, d3, k4, c4, d4, y.
  model_layers.
  change 1280 with (1024 + 256). change 640 with (512 + 128).
  change 320 with (256 + 64).
  repeat match goal with |- _ /\ _ => split end;
    try assumption; try (repeat split; assumption).
  unfold UNet_forward. model_layers.
  rewrite He1. cbn [bind]. rewrite He2. cbn [bind].
  rewrite He3. cbn [bind]. rewrite He4. cbn [bind].
  rewrite Hb. cbn [bind]. rewrite Hcc1. cbn [bind].
  rewrite Hd1. cbn [bind]. rewrite Hcc2. cbn [bind].
  rewrite Hd2. cbn [bind]. rewrite Hcc3. cbn [bind].
  rewrite Hd3. cbn [bind]. rewrite Hcc4. cbn [bind].
  rewrite Hd4. cbn [bind]. exact (proj1 Hy).
Qed.
End ForwardStages.

(** ** The network without numeric content *)

Lemma unit_kernel_length l (t : tensor unit) s :
  wf t -> layer_shape l (shape t) = Ok s ->
  length (unit_kernel l t) = numel s.
Proof.
  intros _ H. unfold unit_kernel. rewrite H. apply repeat_length.
Qed.

(** ** The network in its mode *)

Section NetworkClaims.
Variable A : Type.
Variable training : bool.
Variable zero : A.
Variable kernel : layer -> tensor A -> list A.
Hypothesis kernel_length :
  forall l t s, wf t -> layer_shape l (shape t) = Ok s ->
                length (kernel l t) = numel s.

(** Every stage of [model(x)] on a batch (N, 3, H, W) of planes of at
    least 16 x 16 pixels, in eval mode or when the bottleneck holds more
    than one value per channel. *)
Lemma UNet_call_stages x N H W :
  shape x = [N; 3; H; W] -> wf x -> 16 <= H -> 16 <= W ->
  training = false \/ N * (H / 16) * (W / 16) <> 1 ->
  exists e1 e2 e3 e4 b k1 c1 d1 k2 c2 d2 k3 c3 d3 k4 c4 d4 y,
    produces (Sequential_call training kernel (enc1 model) x) e1
      [N; 64; H / 2; W / 2]
    /\ produces (Sequential_call training kernel (enc2 model) e1) e2
         [N; 128; H / 4; W / 4]
    /\ produces (Sequential_call training kernel (enc3 model) e2) e3
         [N; 256; H / 8; W / 8]
    /\ produces (Sequential_call training kernel (enc4 model) e3) e4
         [N; 512; H / 16; W / 16]
    /\ produces (Sequential_call training kernel (bottleneck model) e4) b
         [N; 1024; H / 16; W / 16]
    /\ produces (CenterCrop zero (H / 16) (W / 16) e4) k1
         [N; 512; H / 16; W / 16]
    /\ produces (cat_channels b k1) c1 [N; 1536; H / 16; W / 16]
    /\ crop_and_concat zero b e4 = Ok c1
    /\ produces (Sequential_call training kernel (dec1 model) c1) d1
         [N; 1024; 2 * (H / 16); 2 * (W / 16)]
    /\ produces (CenterCrop zero (2 * (H / 16)) (2 * (W / 16)) e3) k2
         [N; 256; 2 * (H / 16); 2 * (W / 16)]
    /\ produces (cat_channels d1 k2) c2
         [N; 1280; 2 * (H / 16); 2 * (W / 16)]
    /\ crop_and_concat zero d1 e3 = Ok c2
    /\ produces (Sequential_call training kernel (dec2 model) c2) d2
         [N; 512; 4 * (H / 16); 4 * (W / 16)]
    /\ produces (CenterCrop zero (4 * (H / 16)) (4 * (W / 16)) e2) k3
         [N; 128; 4 * (H / 16); 4 * (W / 16)]
    /\ produces (cat_channels d2 k3) c3
         [N; 640; 4 * (H / 16); 4 * (W / 16)]
    /\ crop_and_concat zero d2 e2 = Ok c3
    /\ produces (Sequential_call training kernel (dec3 model) c3) d3
         [N; 256; 8 * (H / 16); 8 * (W / 16)]
    /\ produces (CenterCrop zero (8 * (H / 16)) (8 * (W / 16)) e1) k4
         [N; 64; 8 * (H / 16); 8 * (W / 16)]
    /\ produces (cat_channels d3 k4) c4
         [N; 320; 8 * (H / 16); 8 * (W / 16)]
    /\ crop_and_concat zero d3 e1 = Ok c4
    /\ produces (Sequential_call training kernel (dec4 model) c4) d4
         [N; 128; 16 * (H / 16); 16 * (W / 16)]
    /\ produces (layer_call training kernel (final model) d4) y
         [N; 1; 16 * (H / 16); 16 * (W / 16)]
    /\ UNet_call training zero kernel model x = Ok y.
Proof.
  intros Hx Hwx HH HW Hm.
  destruct (sizes_16 HH) as (Hh1 & Hh2 & Hh3 & Hh4 & Eh4 & Eh8 & Eh16).
  destruct (sizes_16 HW) as (Hw1 & Hw2 & Hw3 & Hw4 & Ew4 & Ew8 & Ew16).
  rewrite Eh4, Ew4 in *. rewrite Eh8, Ew8 in *. rewrite Eh16, Ew16 in *.
  destruct (@UNet_forward_stages A zero kernel kernel_length x N H W
              Hx Hwx HH HW)
    as (e1 & e2 & e3 & e4 & b & k1 & c1 & d1 & k2 & c2 & d2 & k3 & c3 & d3
        & k4 & c4 & d4 & y
        & He1 & He2 & He3 & He4 & Hb & Hk1 & Hc1 & Hcc1 & Hd1 & Hk2 & Hc2
        & Hcc2 & Hd2 & Hk3 & Hc3 & Hcc3 & Hd3 & Hk4 & Hc4 & Hcc4 & Hd4
        & Hy & Hf).
  model_layers.
  assert (R1 : Sequential_call training kernel (encoder 3 64) x
               = run kernel (encoder 3 64) x).
  { apply Sequential_call_run. rewrite Hx.
    apply seq_refuses_encoder; lia. }
  assert (R2 : Sequential_call training kernel (encoder 64 128) e1
               = run kernel (encoder 64 128) e1).
  { apply Sequential_call_run. rewrite (proj1 (proj2 He1)).
    now apply seq_refuses_encoder. }
  assert (R3 : Sequential_call training kernel (encoder 128 256) e2
               = run kernel (encoder 128 256) e2).
  { apply Sequential_call_run. rewrite (proj1 (proj2 He2)).
    now apply seq_refuses_encoder. }
  assert (R4 : Sequential_call training kernel (encoder 256 512) e3
               = run kernel (encoder 256 512) e3).
  { apply Sequential_call_run. rewrite (proj1 (proj2 He3)).
    now apply seq_refuses_encoder. }
  assert (R5 : Sequential_call training kernel
                 (CBR 512 1024 ++ CBR 1024 1024 ++ CBR 1024 1024) e4
               = run kernel
                   (CBR 512 1024 ++ CBR 1024 1024 ++ CBR 1024 1024) e4).
  { apply Sequential_call_run. rewrite (proj1 (proj2 He4)).
    now apply seq_refuses_bottleneck. }
  assert (R6 : Sequential_call training kernel (decoder 1536 1024) c1
               = run kernel (decoder 1536 1024) c1).
  { apply Sequential_call_run. rewrite (proj1 (proj2 Hc1)).
    now apply seq_refuses_decoder. }
  assert (R7 : Sequential_call training kernel (decoder (1024 + 256) 512) c2
               = run kernel (decoder (1024 + 256) 512) c2).
  { apply Sequential_call_run. rewrite (proj1 (proj2 Hc2)).
    apply seq_refuses_decoder; lia. }
  assert (R8 : Sequential_call training kernel (decoder (512 + 128) 256) c3
               = run kernel (decoder (512 + 128) 256) c3).
  { apply Sequential_call_run. rewrite (proj1 (proj2 Hc3)).
    apply seq_refuses_decoder; lia. }
  assert (R9 : Sequential_call training kernel (decoder (256 + 64) 128) c4
               = run kernel (decoder (256 + 64) 128) c4).
  { apply Sequential_call_run. rewrite (proj1 (proj2 Hc4)).
    apply seq_refuses_decoder; lia. }
  exists e1, e2, e3, e4, b, k1, c1, d1, k2, c2, d2, k3, c3, d3, k4, c4, d4, y.
  rewrite R1, R2, R3, R4, R5, R6, R7, R8, R9, layer_call_Conv2d.
  repeat match goal with |- _ /\ _ => split end;
    try assumption; try (repeat split; assumption).
  unfold UNet_call. model_layers.
  rewrite R1, (proj1 He1). cbn [bind]. rewrite R2, (proj1 He2). cbn [bind].
  rewrite R3, (proj1 He3). cbn [bind]. rewrite R4, (proj1 He4). cbn [bind].
  rewrite R5, (proj1 Hb). cbn [bind]. rewrite Hcc1. cbn [bind].
  rewrite R6, (proj1 Hd1). cbn [bind]. rewrite Hcc2. cbn [bind].
  rewrite R7, (proj1 Hd2). cbn [bind]. rewrite Hcc3. cbn [bind].
  rewrite R8, (proj1 Hd3). cbn [bind]. rewrite Hcc4. cbn [bind].
  rewrite R9, (proj1 Hd4). cbn [bind]. exact (proj1 Hy).
Qed.

(** C3, as the code has it.  On a batch (N, 3, H, W) of at least one image,
    with H and W positive multiples of 16, in eval mode or when
    N * (H / 16) * (W / 16) is not 1, [model(x)] returns a tensor of shape
    (N, 1, H, W), one logit per input pixel, which is the final
    convolution of the output of the last decoder stage.  The four
    encoder stages halve the resolution, the bottleneck keeps it, the four
    decoder stages double it, and the tensors concatenated before the
    decoder stages have 1536, 1280, 640 and 320 channels. *)
Theorem UNet_call_shape x N H W :
  shape x = [N; 3; H; W] -> wf x ->
  0 < N -> 0 < H -> 0 < W ->
  Nat.divide 16 H -> Nat.divide 16 W ->
  training = false \/ N * (H / 16) * (W / 16) <> 1 ->
  exists e1 e2 e3 e4 b c1 d1 c2 d2 c3 d3 c4 d4 y,
    produces (Sequential_call training kernel (enc1 model) x) e1
      [N; 64; H / 2; W / 2]
    /\ produces (Sequential_call training kernel (enc2 model) e1) e2
         [N; 128; H / 4; W / 4]
    /\ produces (Sequential_call training kernel (enc3 model) e2) e3
         [N; 256; H / 8; W / 8]
    /\ produces (Sequential_call training kernel (enc4 model) e3) e4
         [N; 512; H / 16; W / 16]
    /\ produces (Sequential_call training kernel (bottleneck model) e4) b
         [N; 1024; H / 16; W / 16]
    /\ produces (crop_and_concat zero b e4) c1 [N; 1536; H / 16; W / 16]
    /\ produces (Sequential_call training kernel (dec1 model) c1) d1
         [N; 1024; H / 8; W / 8]
    /\ produces (crop_and_concat zero d1 e3) c2 [N; 1280; H / 8; W / 8]
    /\ produces (Sequential_call training kernel (dec2 model) c2) d2
         [N; 512; H / 4; W / 4]
    /\ produces (crop_and_concat zero d2 e2) c3 [N; 640; H / 4; W / 4]
    /\ produces (Sequential_call training kernel (dec3 model) c3) d3
         [N; 256; H / 2; W / 2]
    /\ produces (crop_and_concat zero d3 e1) c4 [N; 320; H / 2; W / 2]
    /\ produces (Sequential_call training kernel (dec4 model) c4) d4
         [N; 128; H; W]
    /\ produces (layer_call training kernel (final model) d4) y
         [N; 1; H; W]
    /\ UNet_call training zero kernel model x = Ok y
    /\ length (data y) = N * (H * W).
Proof.
  intros Hx Hwx _ HH0 HW0 HH HW Hm.
  assert (HH16 : 16 <= H) by (destruct HH as [k ->]; lia).
  assert (HW16 : 16 <= W) by (destruct HW as [k ->]; lia).
  destruct (@UNet_call_stages x N H W Hx Hwx HH16 HW16 Hm)
    as (e1 & e2 & e3 & e4 & b & k1 & c1 & d1 & k2 & c2 & d2 & k3 & c3 & d3
        & k4 & c4 & d4 & y
        & He1 & He2 & He3 & He4 & Hb & Hk1 & Hc1 & Hcc1 & Hd1 & Hk2 & Hc2
        & Hcc2 & Hd2 & Hk3 & Hc3 & Hcc3 & Hd3 & Hk4 & Hc4 & Hcc4 & Hd4
        & Hy & Hf).
  destruct (divide_16 HH) as (Ah2 & Ah4 & Ah8 & Ah16).
  destruct (divide_16 HW) as (Aw2 & Aw4 & Aw8 & Aw16).
  rewrite Ah2, Ah4, Ah8, Ah16, Aw2, Aw4, Aw8, Aw16 in *.
  pose proof (conj Hcc1 (proj2 Hc1)) as P1.
  pose proof (conj Hcc2 (proj2 Hc2)) as P2.
  pose proof (conj Hcc3 (proj2 Hc3)) as P3.
  pose proof (conj Hcc4 (proj2 Hc4)) as P4.
  exists e1, e2, e3, e4, b, c1, d1, c2, d2, c3, d3, c4, d4, y.
  repeat match goal with |- _ /\ _ => split end; try assumption.
  destruct Hy as (_ & Hsy & Hwy).
  unfold wf in Hwy. rewrite Hwy, Hsy. unfold numel. simpl fold_right. lia.
Qed.

(** C4, as the code has it.  On a batch (N, 3, H, W) of at least one image
    with planes of at least 16 x 16 pixels, in eval mode or when
    N * (H / 16) * (W / 16) is not 1, the input of each decoder stage is
    the concatenation along the channels of the previous stage's output
    with the center crop, to the spatial size of that output, of the
    output of the corresponding encoder stage (bottleneck with enc4, dec1
    with enc3, dec2 with enc2, dec3 with enc1).  The two tensors have
    equal spatial dimensions at all four points, and the crops change
    nothing, exactly when H and W leave a remainder of at most 1 modulo
    16. *)
Theorem UNet_call_skip_connections x N H W :
  shape x = [N; 3; H; W] -> wf x ->
  0 < N -> 16 <= H -> 16 <= W ->
  training = false \/ N * (H / 16) * (W / 16) <> 1 ->
  exists e1 e2 e3 e4 b k1 c1 d1 k2 c2 d2 k3 c3 d3 k4 c4 d4 y,
    Sequential_call training kernel (enc1 model) x = Ok e1
    /\ Sequential_call training kernel (enc2 model) e1 = Ok e2
    /\ Sequential_call training kernel (enc3 model) e2 = Ok e3
    /\ Sequential_call training kernel (enc4 model) e3 = Ok e4
    /\ Sequential_call training kernel (bottleneck model) e4 = Ok b
    /\ crops zero b e4 k1 c1
    /\ Sequential_call training kernel (dec1 model) c1 = Ok d1
    /\ crops zero d1 e3 k2 c2
    /\ Sequential_call training kernel (dec2 model) c2 = Ok d2
    /\ crops zero d2 e2 k3 c3
    /\ Sequential_call training kernel (dec3 model) c3 = Ok d3
    /\ crops zero d3 e1 k4 c4
    /\ Sequential_call training kernel (dec4 model) c4 = Ok d4
    /\ layer_call training kernel (final model) d4 = Ok y
    /\ UNet_call training zero kernel model x = Ok y
    /\ ((same_planes b e4 /\ same_planes d1 e3
         /\ same_planes d2 e2 /\ same_planes d3 e1)
        <-> H mod 16 <= 1 /\ W mod 16 <= 1)
    /\ ((k1 = e4 /\ k2 = e3 /\ k3 = e2 /\ k4 = e1)
        <-> H mod 16 <= 1 /\ W mod 16 <= 1).
Proof.
  intros Hx Hwx _ HH HW Hm.
  destruct (@UNet_call_stages x N H W Hx Hwx HH HW Hm)
    as (e1 & e2 & e3 & e4 & b & k1 & c1 & d1 & k2 & c2 & d2 & k3 & c3 & d3
        & k4 & c4 & d4 & y
        & (He1 & Se1 & We1) & (He2 & Se2 & We2) & (He3 & Se3 & We3)
        & (He4 & Se4 & We4) & (Hb & Sb & Wb)
        & (Hk1 & Sk1 & _) & (Hc1 & Sc1 & _) & Hcc1 & (Hd1 & Sd1 & _)
        & (Hk2 & Sk2 & _) & (Hc2 & Sc2 & _) & Hcc2 & (Hd2 & Sd2 & _)
        & (Hk3 & Sk3 & _) & (Hc3 & Sc3 & _) & Hcc3 & (Hd3 & Sd3 & _)
        & (Hk4 & Sk4 & _) & (Hc4 & Sc4 & _) & Hcc4 & (Hd4 & _)
        & (Hy & _) & Hf).
  pose proof (planes_match H) as PH. pose proof (planes_match W) as PW.
  exists e1, e2, e3, e4, b, k1, c1, d1, k2, c2, d2, k3, c3, d3, k4, c4, d4, y.
  repeat match goal with |- _ /\ _ => split end; try assumption.
  - exists N, 1024, 512, (H / 16), (W / 16). now repeat split.
  - exists N, 1024, 256, (2 * (H / 16)), (2 * (W / 16)). now repeat split.
  - exists N, 512, 128, (4 * (H / 16)), (4 * (W / 16)). now repeat split.
  - exists N, 256, 64, (8 * (H / 16)), (8 * (W / 16)). now repeat split.
  - split.
    + intros (_ & (n1 & a1 & b1 & h1 & w1 & U1 & D1)
              & (n2 & a2 & b2 & h2 & w2 & U2 & D2)
              & (n3 & a3 & b3 & h3 & w3 & U3 & D3)).
      rewrite Sd1 in U1. rewrite Se3 in D1.
      rewrite Sd2 in U2. rewrite Se2 in D2.
      rewrite Sd3 in U3. rewrite Se1 in D3.
      split; [apply PH|apply PW]; repeat split; congruence.
    + intros [Hr Wr]. apply PH in Hr. apply PW in Wr.
      destruct Hr as (A8 & A4 & A2). destruct Wr as (B8 & B4 & B2).
      split; [|split; [|split]].
      * exists N, 1024, 512, (H / 16), (W / 16). now split.
      * exists N, 1024, 256, (H / 8), (W / 8).
        split; [now rewrite Sd1, A8, B8|assumption].
      * exists N, 512, 128, (H / 4), (W / 4).
        split; [now rewrite Sd2, A4, B4|assumption].
      * exists N, 256, 64, (H / 2), (W / 2).
        split; [now rewrite Sd3, A2, B2|assumption].
  - split.
    + intros (_ & E2 & E3 & E4). subst k2 k3 k4.
      rewrite Se3 in Sk2. rewrite Se2 in Sk3. rewrite Se1 in Sk4.
      split; [apply PH|apply PW]; repeat split; congruence.
    + intros [Hr Wr]. apply PH in Hr. apply PW in Wr.
      destruct Hr as (A8 & A4 & A2). destruct Wr as (B8 & B4 & B2).
      rewrite A8, B8 in Hk2. rewrite A4, B4 in Hk3. rewrite A2, B2 in Hk4.
      rewrite (@CenterCrop_same A zero e4 _ _ _ _ Se4 We4) in Hk1.
      rewrite (@CenterCrop_same A zero e3 _ _ _ _ Se3 We3) in Hk2.
      rewrite (@CenterCrop_same A zero e2 _ _ _ _ Se2 We2) in Hk3.
      rewrite (@CenterCrop_same A zero e1 _ _ _ _ Se1 We1) in Hk4.
      repeat split; congruence.
Qed.
End NetworkClaims.

Lemma UNet_call_shape_witness :
  exists e1 e2 e3 e4 b c1 d1 c2 d2 c3 d3 c4 d4 y,
    produces (Sequential_call true unit_kernel (enc1 model)
                (blank [2; 3; 16; 16])) e1 [2; 64; 16 / 2; 16 / 2]
    /\ produces (Sequential_call true unit_kernel (enc2 model) e1) e2
         [2; 128; 16 / 4; 16 / 4]
    /\ produces (Sequential_call true unit_kernel (enc3 model) e2) e3
         [2; 256; 16 / 8; 16 / 8]
    /\ produces (Sequential_call true unit_kernel (enc4 model) e3) e4
         [2; 512; 16 / 16; 16 / 16]
    /\ produces (Sequential_call true unit_kernel (bottleneck model) e4) b
         [2; 1024; 16 / 16; 16 / 16]
    /\ produces (crop_and_concat tt b e4) c1 [2; 1536; 16 / 16; 16 / 16]
    /\ produces (Sequential_call true unit_kernel (dec1 model) c1) d1
         [2; 1024; 16 / 8; 16 / 8]
    /\ produces (crop_and_concat tt d1 e3) c2 [2; 1280; 16 / 8; 16 / 8]
    /\ produces (Sequential_call true unit_kernel (dec2 model) c2) d2
         [2; 512; 16 / 4; 16 / 4]
    /\ produces (crop_and_concat tt d2 e2) c3 [2; 640; 16 / 4; 16 / 4]
    /\ produces (Sequential_call true unit_kernel (dec3 model) c3) d3
         [2; 256; 16 / 2; 16 / 2]
    /\ produces (crop_and_concat tt d3 e1) c4 [2; 320; 16 / 2; 16 / 2]
    /\ produces (Sequential_call true unit_kernel (dec4 model) c4) d4
         [2; 128; 16; 16]
    /\ produces (layer_call true unit_kernel (final model) d4) y
         [2; 1; 16; 16]
    /\ UNet_call true tt unit_kernel model (blank [2; 3; 16; 16]) = Ok y
    /\ length (data y) = 2 * (16 * 16).
Proof.
  apply (@UNet_call_shape unit true tt unit_kernel unit_kernel_length
           (blank [2; 3; 16; 16]) 2 16 16).
  - reflexivity.
  - vm_compute. reflexivity.
  - lia.
  - lia.
  - lia.
  - exists 1. reflexivity.
  - exists 1. reflexivity.
  - right. intro E. vm_compute in E. discriminate E.
Defined.

(** C3 as stated fails in training mode, the mode of a freshly built model
    and of every training step, on a single 16 x 16 image: enc4 returns
    1 x 1 maps and the first BatchNorm2d of the bottleneck, which meets a
    single value per channel, raises ValueError; in eval mode the same
    input is accepted.  It also fails on images without pixels (16 divides
    0): the first convolution raises RuntimeError. *)
Lemma UNet_call_single_value :
  Nat.divide 16 16
  /\ Sequential_call true unit_kernel (enc4 model) (blank [1; 256; 2; 2])
     = Ok (blank [1; 512; 1; 1])
  /\ Sequential_call true unit_kernel (bottleneck model)
       (blank [1; 512; 1; 1]) = Raise ValueError
  /\ UNet_call true tt unit_kernel model (blank [1; 3; 16; 16])
     = Raise ValueError
  /\ UNet_call false tt unit_kernel model (blank [1; 3; 16; 16])
     = Ok (blank [1; 1; 16; 16])
  /\ Nat.divide 16 0
  /\ UNet_call false tt unit_kernel model (blank [1; 3; 0; 0])
     = Raise RuntimeError.
Proof.
  split; [exists 1; reflexivity|].
  do 4 (split; [vm_compute; reflexivity|]).
  split; [exists 0; reflexivity|].
  vm_compute. reflexivity.
Qed.

Lemma UNet_call_skip_connections_witness :
  exists e1 e2 e3 e4 b k1 c1 d1 k2 c2 d2 k3 c3 d3 k4 c4 d4 y,
    Sequential_call true unit_kernel (enc1 model) (blank [2; 3; 24; 40])
    = Ok e1
    /\ Sequential_call true unit_kernel (enc2 model) e1 = Ok e2
    /\ Sequential_call true unit_kernel (enc3 model) e2 = Ok e3
    /\ Sequential_call true unit_kernel (enc4 model) e3 = Ok e4
    /\ Sequential_call true unit_kernel (bottleneck model) e4 = Ok b
    /\ crops tt b e4 k1 c1
    /\ Sequential_call true unit_kernel (dec1 model) c1 = Ok d1
    /\ crops tt d1 e3 k2 c2
    /\ Sequential_call true unit_kernel (dec2 model) c2 = Ok d2
    /\ crops tt d2 e2 k3 c3
    /\ Sequential_call true unit_kernel (dec3 model) c3 = Ok d3
    /\ crops tt d3 e1 k4 c4
    /\ Sequential_call true unit_kernel (dec4 model) c4 = Ok d4
    /\ layer_call true unit_kernel (final model) d4 = Ok y
    /\ UNet_call true tt unit_kernel model (blank [2; 3; 24; 40]) = Ok y
    /\ ((same_planes b e4 /\ same_planes d1 e3
         /\ same_planes d2 e2 /\ same_planes d3 e1)
        <-> 24 mod 16 <= 1 /\ 40 mod 16 <= 1)
    /\ ((k1 = e4 /\ k2 = e3 /\ k3 = e2 /\ k4 = e1)
        <-> 24 mod 16 <= 1 /\ 40 mod 16 <= 1).
Proof.
  apply (@UNet_call_skip_connections unit true tt unit_kernel
           unit_kernel_length (blank [2; 3; 24; 40]) 2 24 40).
  - reflexivity.
  - vm_compute. reflexivity.
  - lia.
  - lia.
  - lia.
  - right. intro E. vm_compute in E. discriminate E.
Defined.

(** C4 as stated fails on two 24 x 24 images, in either mode: the encoder
    outputs are 12, 6, 3 and 1 pixels wide, the first decoder stage
    returns 2 x 2 maps, and the crop takes a 2 x 2 window out of the 3 x 3
    maps of enc3. *)
Lemma UNet_call_crops_24 :
  Sequential_call true unit_kernel (enc1 model) (blank [2; 3; 24; 24])
  = Ok (blank [2; 64; 12; 12])
  /\ Sequential_call true unit_kernel (enc2 model) (blank [2; 64; 12; 12])
     = Ok (blank [2; 128; 6; 6])
  /\ Sequential_call true unit_kernel (enc3 model) (blank [2; 128; 6; 6])
     = Ok (blank [2; 256; 3; 3])
  /\ Sequential_call true unit_kernel (enc4 model) (blank [2; 256; 3; 3])
     = Ok (blank [2; 512; 1; 1])
  /\ Sequential_call true unit_kernel (bottleneck model)
       (blank [2; 512; 1; 1])
     = Ok (blank [2; 1024; 1; 1])
  /\ crop_and_concat tt (blank [2; 1024; 1; 1]) (blank [2; 512; 1; 1])
     = Ok (blank [2; 1536; 1; 1])
  /\ Sequential_call true unit_kernel (dec1 model) (blank [2; 1536; 1; 1])
     = Ok (blank [2; 1024; 2; 2])
  /\ CenterCrop tt 2 2 (blank [2; 256; 3; 3]) = Ok (blank [2; 256; 2; 2])
  /\ UNet_call true tt unit_kernel model (blank [2; 3; 24; 24])
     = Ok (blank [2; 1; 16; 16])
  /\ UNet_call false tt unit_kernel model (blank [2; 3; 24; 24])
     = Ok (blank [2; 1; 16; 16])
  /\ blank [2; 256; 2; 2] <> blank [2; 256; 3; 3]
  /\ ~ same_planes (blank [2; 1024; 2; 2]) (blank [2; 256; 3; 3]).
Proof.
  do 10 (split; [vm_compute; reflexivity|]).
  split.
  - intro H. apply (f_equal (@shape unit)) in H. discriminate.
  - intros (n & ca & cb & h & w & Hu & Hd).
    cbn [blank shape] in Hu, Hd. congruence.
Qed.

(** ** The dataset *)

Section DatasetClaims.
Variable obj : Type.
Variable rng : Type.
Variable csv_files : string -> result DataFrame.
Variable Image_open : string -> result obj.
Variable convert : string -> obj -> result obj.
Variable deterministic : transform -> obj -> obj.
Variable randomized : transform -> rng -> obj -> obj * rng.



(** A pipeline without random transforms does not touch the generator and
    its result does not depend on it. *)
Lemma apply_compose_deterministic ts x g :
  forallb (fun t => negb (is_random t)) ts = true ->
  apply_compose deterministic randomized ts x g
  = (fold_left (fun y t => deterministic t y) ts x, g).
Proof.
  revert x. induction ts as [|t ts IH]; intros x H; simpl in *.
  - reflexivity.
  - apply andb_prop in H as [Ht Hts].
    unfold apply_transform. destruct (is_random t); [discriminate|].
    now apply IH.
Qed.

(** C10.  No transform of [image_transform] or [mask_transform] is random,
    whereas [data_augmentation] consists of random transforms; both
    datasets carry [image_transform] and [mask_transform] and not
    [data_augmentation]; hence two calls of [__getitem__] with one index on
    the same files, in whatever states of the random generator, have the
    same outcome (the same pair, or the same exception) and leave the
    generator as it was. *)
Theorem getitem_deterministic ds idx g1 g2 :
  train_dataset csv_files = Ok ds \/ test_dataset csv_files = Ok ds ->
  forallb (fun t => negb (is_random t)) image_transform = true
  /\ forallb (fun t => negb (is_random t)) mask_transform = true
  /\ forallb is_random data_augmentation = true
  /\ ds_image_transform ds = Some image_transform
  /\ ds_mask_transform ds = Some mask_transform
  /\ ds_image_transform ds <> Some data_augmentation
  /\ ds_mask_transform ds <> Some data_augmentation
  /\ match FloodDataset_getitem Image_open convert deterministic
             randomized ds idx g1,
           FloodDataset_getitem Image_open convert deterministic
             randomized ds idx g2 with
     | Ok (pair1, g1'), Ok (pair2, g2') =>
         pair1 = pair2 /\ g1' = g1 /\ g2' = g2
     | Raise e1, Raise e2 => e1 = e2
     | _, _ => False
     end.
Proof.
  intro Hds.
  assert (Htr : ds_image_transform ds = Some image_transform
                /\ ds_mask_transform ds = Some mask_transform).
  { destruct Hds as [H | H];
      unfold train_dataset, test_dataset, FloodDataset_init in H;
      match type of H with
      | context [csv_files ?f] => destruct (csv_files f) as [df|e]
      end; simpl in H; try discriminate;
      injection H as <-; split; reflexivity. }
  destruct Htr as [Hi Hm].
  assert (Hdi : forallb (fun t => negb (is_random t)) image_transform = true)
    by reflexivity.
  assert (Hdm : forallb (fun t => negb (is_random t)) mask_transform = true)
    by reflexivity.
  split; [exact Hdi|]. split; [exact Hdm|]. split; [reflexivity|].
  split; [exact Hi|]. split; [exact Hm|].
  split; [rewrite Hi; discriminate|]. split; [rewrite Hm; discriminate|].
  unfold FloodDataset_getitem. rewrite Hi, Hm.
  destruct (iloc (img_labels ds) idx 0) as [c0|e]; cbn [bind];
    [|reflexivity].
  destruct (os_path_join (img_dir ds) c0) as [img_name|e]; cbn [bind];
    [|reflexivity].
  destruct (iloc (img_labels ds) idx 1) as [c1|e]; cbn [bind];
    [|reflexivity].
  destruct (os_path_join (mask_dir ds) c1) as [mask_name|e]; cbn [bind];
    [|reflexivity].
  destruct (Image_open img_name) as [i|e]; cbn [bind]; [|reflexivity].
  destruct (convert "RGB" i) as [image|e]; cbn [bind]; [|reflexivity].
  destruct (Image_open mask_name) as [m|e]; cbn [bind]; [|reflexivity].
  destruct (convert "L" m) as [mask|e]; cbn [bind]; [|reflexivity].
  rewrite !apply_compose_deterministic by reflexivity.
  repeat split.
Qed.
End DatasetClaims.

Section SmallFiles.
Open Scope string_scope.

Example path_join_examples :
  path_join "/data/img" "0.jpg" = "/data/img/0.jpg"
  /\ path_join "/data/mask/" "0.png" = "/data/mask/0.png"
  /\ path_join "/data/img" "/abs/0.jpg" = "/abs/0.jpg"
  /\ path_join "" "0.jpg" = "0.jpg".
Proof. repeat split. Qed.
End SmallFiles.



Lemma getitem_deterministic_witness :
  forallb (fun t => negb (is_random t)) image_transform = true
  /\ forallb (fun t => negb (is_random t)) mask_transform = true
  /\ forallb is_random data_augmentation = true
  /\ ds_image_transform one_row_train = Some image_transform
  /\ ds_mask_transform one_row_train = Some mask_transform
  /\ ds_image_transform one_row_train <> Some data_augmentation
  /\ ds_mask_transform one_row_train <> Some data_augmentation
  /\ match FloodDataset_getitem open_path tag_mode keep draw one_row_train 0 3,
           FloodDataset_getitem open_path tag_mode keep draw one_row_train 0 7 with
     | Ok (pair1, g1'), Ok (pair2, g2') =>
         pair1 = pair2 /\ g1' = 3 /\ g2' = 7
     | Raise e1, Raise e2 => e1 = e2
     | _, _ => False
     end.
Proof.
  apply (@getitem_deterministic string nat one_row_csv open_path
           tag_mode keep draw one_row_train 0%Z 3 7).
  left. reflexivity.
Defined.

(** ** The training loop *)

Section TrainingClaims.
Variable params : Type.
Variable grads : Type.
Variable ostate : Type.
Variable model_forward :
  params -> bool -> tensor R -> result (tensor R * params).
Variable no_grads : grads.
Variable autograd : params -> tensor R -> tensor R -> grads -> grads.
Variable AdamW_step : params -> grads -> ostate -> params * ostate.
Variable train_loader : nat -> list (tensor R * tensor R).






End TrainingClaims.


(** ** The evaluation loop *)

Section MeansOfMeans.
Open Scope R_scope.





End MeansOfMeans.

Section EvaluationClaims.
Variable params : Type.
Variable grads : Type.
Variable ostate : Type.
Variable model_forward :
  params -> bool -> tensor R -> result (tensor R * params).
Variable test_loader : list (tensor R * tensor R).

Lemma eval_batches_spec batches :
  forall (st : state params grads ostate) total count ious,
    training st = false -> grad_enabled st = false ->
    batch_ious model_forward (model_params st) batches = Ok ious ->
    exists st',
      eval_batches model_forward batches st total count
      = Ok (st', fold_left Xadd ious total, count + length ious)
      /\ trace st'
         = trace st ++ map (fun b => ForwardPass false false (fst b)) batches
      /\ grad_enabled st' = false.
Proof.
  induction batches as [|[images masks] rest IH];
    intros st total count ious Htr Hg Hb.
  - injection Hb as <-. exists st. simpl.
    rewrite Nat.add_0_r, app_nil_r. now repeat split.
  - cbn [batch_ious] in Hb. cbn [eval_batches]. unfold model_call.
    destruct (model_forward (model_params st) (training st) images)
      as [[outputs p']|e] eqn:Hf; rewrite Htr in Hf; rewrite Hf in Hb;
      cbn [bind] in *; [|discriminate].
    destruct (calculate_iou outputs masks) as [iou|e]; cbn [bind] in *;
      [|discriminate].
    destruct (batch_ious model_forward p' rest) as [ious'|e] eqn:Hrest; cbn [bind] in *;
      [|discriminate].
    injection Hb as <-. rewrite Htr, Hg.
    match goal with
    | |- context [eval_batches _ rest ?s ?t ?c] =>
        destruct (IH s t c ious') as (st' & Hrun & Htrace & Hg')
    end; try reflexivity; try assumption.
    exists st'. rewrite Hrun. cbn [trace log] in Htrace.
    split; [|split; [|assumption]].
    + cbn [length fold_left].
      replace (count + 1 + length ious') with (count + S (length ious'))
        by lia.
      reflexivity.
    + rewrite Htrace. cbn [map fst]. rewrite <- app_assoc.
      reflexivity.
Qed.

Lemma Xsum_reals vs a :
  fold_left Xadd (map Xreal vs) (Xreal a) = Xreal (a + Rsum vs).
Proof.
  revert a. induction vs as [|v vs IH]; intro a; simpl.
  - f_equal. lra.
  - rewrite IH. f_equal. lra.
Qed.


End EvaluationClaims.



Lemma evaluation_two_batches :
  evaluation identity_forward two_batches initial_state
  = Ok (two_batches_average, evaluated_state).
Proof.
  unfold evaluation, two_batches.
  cbn [eval_batches model_call identity_forward bind model_eval set_training
       set_grad_enabled log model_params training grad_enabled param_grads
       optimizer_state trace initial_state].
  rewrite calculate_iou_column_preds.
  cbn [bind Xadd Nat.eqb Nat.add Xdiv app].
  reflexivity.
Qed.







(** * Further properties of the code *)

(** ** [calculate_iou]: what it depends on *)

Section IoUDependence.
Open Scope R_scope.

Lemma binarized_tensor preds :
  tmap to_int (tmap gt_half (tmap sigmoid preds))
  = mkTensor (shape preds) (map binarize (data preds)).
Proof. unfold tmap, binarize. cbn [shape data]. now rewrite !map_map. Qed.

(** The function sees the predictions through their binarization and the
    labels through their integer cast. *)
Lemma calculate_iou_ext preds preds' labels labels' :
  shape preds = shape preds' -> shape labels = shape labels' ->
  map binarize (data preds) = map binarize (data preds') ->
  map to_int (data labels) = map to_int (data labels') ->
  calculate_iou preds labels = calculate_iou preds' labels'.
Proof.
  intros Hsp Hsl Hp Hl. unfold calculate_iou. cbv zeta.
  rewrite !binarized_tensor.
  change (tmap to_int labels)
    with (mkTensor (shape labels) (map to_int (data labels))).
  change (tmap to_int labels')
    with (mkTensor (shape labels') (map to_int (data labels'))).
  now rewrite Hsp, Hsl, Hp, Hl.
Qed.

Lemma to_int_below_one l : 0 <= l < 1 -> to_int l = 0%Z.
Proof.
  intros [H0 H1]. unfold to_int.
  destruct (Rle_dec 0 l) as [_|n]; [|contradiction].
  apply Zfloor_eq. simpl. lra.
Qed.

(** X3.  The sigmoid and its threshold 0.5 amount to a threshold on the
    logit: two prediction tensors of one shape whose logits are, place by
    place, both at most 0 or both at least 1/1000 have the same IoU against
    any labels of that shape (in particular such logits scaled by a factor
    of at least 1).  The logits between 0 and 1/1000 are left out: the
    sigmoid of a float32 logit as small as 2^-27 rounds to 0.5 and is not
    counted as positive, while its real value is above 0.5. *)
Theorem calculate_iou_sign_only preds preds' labels :
  shape labels = shape preds ->
  shape preds = shape preds' ->
  Forall2 (fun p p' => (p <= 0 /\ p' <= 0)
                       \/ (1 / 1000 <= p /\ 1 / 1000 <= p'))
    (data preds) (data preds') ->
  calculate_iou preds labels = calculate_iou preds' labels.
Proof.
  intros _ Hs Hsign.
  apply calculate_iou_ext; try reflexivity; [assumption|].
  induction Hsign as [|p p' ps ps' Hp _ IH]; simpl; [reflexivity|].
  f_equal; [|exact IH].
  destruct Hp as [[Hp Hp']|[Hp Hp']].
  - rewrite !binarize_nonpos by assumption. reflexivity.
  - rewrite !binarize_pos by lra. reflexivity.
Qed.

Lemma calculate_iou_sign_only_witness :
  calculate_iou column_preds row_labels
  = calculate_iou scaled_preds row_labels.
Proof.
  apply (@calculate_iou_sign_only column_preds scaled_preds row_labels).
  - reflexivity.
  - reflexivity.
  - unfold column_preds, scaled_preds. cbn [data].
    repeat (apply Forall2_cons;
            [(left; split; lra) || (right; split; lra)|]).
    apply Forall2_nil.
Defined.

(** X4.  The integer cast truncates: a mask of the shape of the predictions
    whose values all lie in [0, 1), as grey levels below white do, counts
    as a mask without any positive pixel. *)
Theorem calculate_iou_grey_mask preds labels :
  shape labels = shape preds ->
  Forall (fun l => 0 <= l < 1) (data labels) ->
  calculate_iou preds labels
  = calculate_iou preds (tmap (fun _ => 0) labels).
Proof.
  intros _ Hl. apply calculate_iou_ext; try reflexivity.
  cbn [tmap data]. rewrite map_map.
  induction Hl as [|l ls Hl0 _ IH]; simpl; [reflexivity|].
  rewrite IH, (to_int_below_one Hl0). f_equal.
  symmetry. apply (to_int_IZR 0).
Qed.

Lemma calculate_iou_grey_mask_witness :
  calculate_iou column_preds grey_labels
  = calculate_iou column_preds (tmap (fun _ => 0) grey_labels).
Proof.
  apply (@calculate_iou_grey_mask column_preds grey_labels);
    [reflexivity|].
  unfold grey_labels. cbn [data].
  repeat (apply Forall_cons; [lra|]). apply Forall_nil.
Defined.

Lemma calculate_iou_rank3_witness :
  calculate_iou flat_preds flat_labels
  = Ok (spec_iou flat_preds flat_labels).
Proof.
  apply (@calculate_iou_rank3 flat_preds flat_labels 1%nat 2%nat 2%nat).
  - reflexivity.
  - reflexivity.
  - reflexivity.
  - reflexivity.
  - unfold binary_labels, flat_labels. cbn [data].
    repeat (apply Forall_cons;
            [(left; reflexivity) || (right; reflexivity)|]).
    apply Forall_nil.
Defined.

Lemma calculate_iou_low_rank_witness :
  calculate_iou matrix matrix = Raise IndexError.
Proof.
  apply (@calculate_iou_low_rank matrix matrix).
  - reflexivity.
  - simpl. lia.
Defined.
End IoUDependence.

(** ** The focal loss: symmetry, sign, special cases *)

Section FocalMore.
Open Scope R_scope.

Lemma softplus_flip x : ln (1 + exp x) = x + ln (1 + exp (- x)).
Proof.
  pose proof (exp_pos x) as Hx. pose proof (exp_pos (- x)) as Hn.
  replace (1 + exp x) with (exp x * (1 + exp (- x))).
  - rewrite ln_mult by lra. now rewrite ln_exp.
  - rewrite exp_Ropp. field. lra.
Qed.

(** A logit against a target costs what the opposite logit costs against
    the complementary target. *)
Lemma bce_flip x y : bce_with_logits (- x) (1 - y) = bce_with_logits x y.
Proof.
  rewrite !bce_with_logits_eq, Ropp_involutive, softplus_flip. ring.
Qed.

Lemma bce_with_logits_pos x y : 0 <= y <= 1 -> 0 < bce_with_logits x y.
Proof.
  intros [Hy0 Hy1]. unfold bce_with_logits.
  pose proof (ln_sigmoid_neg x) as [Ha Hb].
  destruct (Rle_dec y (1 / 2)).
  - assert (y * ln (sigmoid x) <= 0) by nra.
    assert ((1 - y) * ln (1 - sigmoid x) < 0) by nra. lra.
  - assert (y * ln (sigmoid x) < 0) by nra.
    assert ((1 - y) * ln (1 - sigmoid x) <= 0) by nra. lra.
Qed.

Lemma one_minus_exp_pos b : 0 < b -> 0 < 1 - exp (- b) < 1.
Proof.
  intro Hb. pose proof (exp_pos (- b)).
  assert (exp (- b) < exp 0) by (apply exp_increasing; lra).
  rewrite exp_0 in *. lra.
Qed.

Lemma focal_term_pos a g b : 0 < a -> 0 < b -> 0 < focal_term a g b.
Proof.
  intros Ha Hb. unfold focal_term.
  pose proof (one_minus_exp_pos Hb) as [H0 _].
  pose proof (pow_lt _ g H0).
  apply Rmult_lt_0_compat; [apply Rmult_lt_0_compat|]; assumption.
Qed.

Lemma focal_term_mono a g b1 b2 :
  0 <= a -> 0 <= b1 <= b2 ->
  (1 - exp (- b1)) ^ g <= (1 - exp (- b2)) ^ g
  /\ focal_term a g b1 <= focal_term a g b2.
Proof.
  intros Ha [H1 H12].
  assert (Hb2 : 0 <= b2) by lra.
  pose proof (modulating_range g H1) as [Hm1 _].
  pose proof (modulating_range g Hb2) as [Hm2 _].
  assert (He : exp (- b2) <= exp (- b1)).
  { destruct H12 as [Hlt | ->]; [|lra].
    left. apply exp_increasing. lra. }
  assert (He1 : exp (- b1) <= 1).
  { destruct H1 as [Hlt | <-].
    - left. rewrite <- exp_0. apply exp_increasing. lra.
    - rewrite Ropp_0, exp_0. lra. }
  assert (Hm : (1 - exp (- b1)) ^ g <= (1 - exp (- b2)) ^ g)
    by (apply pow_incr; lra).
  split; [exact Hm|]. unfold focal_term.
  apply Rmult_le_compat; try lra.
  - apply Rmult_le_pos; assumption.
  - apply Rmult_le_compat_l; assumption.
Qed.

Lemma Rsum_pos l : l <> [] -> Forall (fun x => 0 < x) l -> 0 < Rsum l.
Proof.
  intros Hne H. induction H as [|x l Hx Hl IH]; [contradiction|].
  change (Rsum (x :: l)) with (x + Rsum l).
  destruct l as [|y l']; [simpl; lra|].
  assert (0 < Rsum (y :: l')) by (apply IH; discriminate). lra.
Qed.

Lemma Rsum_scale a l : Rsum (map (focal_term a 0) l) = a * Rsum l.
Proof.
  induction l as [|b l IH]; simpl; [lra|].
  rewrite IH. unfold focal_term. simpl. lra.
Qed.

Lemma shape_eqb_neq s1 s2 : s1 <> s2 -> shape_eqb s1 s2 = false.
Proof.
  intro H. destruct (shape_eqb s1 s2) eqn:E; [|reflexivity].
  apply shape_eqb_eq in E. contradiction.
Qed.

(** X5.  The loss does not change when every logit is negated and every target
    [y] is replaced by [1 - y]: the two classes are treated alike. *)
Theorem FocalLoss_forward_flip self inputs targets :
  FocalLoss_forward self (tmap Ropp inputs) (tmap (fun y => 1 - y) targets)
  = FocalLoss_forward self inputs targets.
Proof.
  assert (E : zipWith bce_with_logits (map Ropp (data inputs))
                (map (fun y => 1 - y) (data targets))
              = zipWith bce_with_logits (data inputs) (data targets)).
  { rewrite zipWith_map_l, zipWith_map_r. apply zipWith_ext.
    intros x y _ _. apply bce_flip. }
  unfold FocalLoss_forward, BCEWithLogitsLoss_none.
  cbn [tmap shape data]. now rewrite E.
Qed.

(** X6.  The loss fails exactly when the shapes of the logits and of the
    targets differ, and then with the ValueError of BCEWithLogitsLoss;
    nothing is broadcast. *)
Theorem FocalLoss_forward_raises self inputs targets e :
  FocalLoss_forward self inputs targets = Raise e
  <-> shape inputs <> shape targets /\ e = ValueError.
Proof.
  split.
  - intro H. destruct (shape_eqb (shape inputs) (shape targets)) eqn:E.
    + apply shape_eqb_eq in E.
      rewrite (FocalLoss_forward_eq self _ _ E) in H. discriminate.
    + unfold FocalLoss_forward, BCEWithLogitsLoss_none in H.
      rewrite E in H. cbn [bind] in H. injection H as <-.
      split; [|reflexivity]. intro Hs. rewrite Hs, shape_eqb_refl in E.
      discriminate.
  - intros [H ->]. unfold FocalLoss_forward, BCEWithLogitsLoss_none.
    now rewrite (shape_eqb_neq H).
Qed.

(** X7.  With alpha at least 1/100 and gamma at most 2 (as for the
    [criterion] of the notebook), on non-empty logits between -10 and 10
    and targets in [0, 1] of one shape, the loss is strictly positive: no
    prediction in this range brings it to zero.  The bounds keep every
    term far above the smallest float32: beyond them the loss of a
    confident prediction, such as the logit 100 for the target 1, rounds
    to 0. *)
Theorem FocalLoss_forward_positive self inputs targets :
  shape inputs = shape targets ->
  wf inputs -> wf targets ->
  data inputs <> [] ->
  Forall (fun x => -10 <= x <= 10) (data inputs) ->
  Forall (fun y => 0 <= y <= 1) (data targets) ->
  1 / 100 <= alpha self ->
  (gamma self <= 2)%nat ->
  exists v, FocalLoss_forward self inputs targets = Ok (Xreal v) /\ 0 < v.
Proof.
  intros Hs Hwi Hwt Hne _ Hy Ha' _.
  assert (Ha : 0 < alpha self) by lra.
  set (l := zipWith bce_with_logits (data inputs) (data targets)).
  assert (Hlen : length l = length (data inputs)).
  { unfold l. apply zipWith_length. unfold wf in *. congruence. }
  assert (Hnil : l <> []).
  { intro E. rewrite E in Hlen. destruct (data inputs);
      [contradiction|discriminate]. }
  assert (Hl : Forall (fun b => 0 < b) l).
  { unfold l. clear - Hy. revert Hy. generalize (data inputs) as xs.
    generalize (data targets) as ys.
    intros ys xs Hy. revert xs.
    induction Hy as [|y ys Hy0 _ IH]; intros [|x xs]; simpl; constructor.
    - now apply bce_with_logits_pos.
    - apply IH. }
  exists (Rsum (map (focal_term (alpha self) (gamma self)) l)
          / INR (length l)).
  split.
  - rewrite FocalLoss_forward_eq by assumption. fold l.
    now rewrite mean_map_nonempty.
  - apply Rdiv_lt_0_compat.
    + apply Rsum_pos.
      * destruct l; [contradiction|discriminate].
      * clear - Hl Ha. induction Hl as [|b l Hb _ IH]; simpl; constructor;
          [now apply focal_term_pos|assumption].
    + apply lt_0_INR. destruct l; [contradiction|simpl; lia].
Qed.

Lemma FocalLoss_forward_positive_witness :
  exists v,
    FocalLoss_forward criterion column_preds row_labels = Ok (Xreal v)
    /\ 0 < v.
Proof.
  apply (@FocalLoss_forward_positive criterion column_preds row_labels).
  - reflexivity.
  - reflexivity.
  - reflexivity.
  - discriminate.
  - simpl. repeat (apply Forall_cons; [lra|]). apply Forall_nil.
  - simpl. repeat (apply Forall_cons; [lra|]). apply Forall_nil.
  - simpl. lra.
  - simpl. lia.
Defined.

(** X8.  With gamma = 0 the modulating factor disappears: the loss is alpha
    times the mean binary cross-entropy (and fails or is NaN as that mean
    does). *)
Theorem FocalLoss_forward_gamma_0 a inputs targets :
  FocalLoss_forward (mkFocalLoss a 0) inputs targets
  = (B <- BCEWithLogitsLoss_none inputs targets ;;
     Ok (Xscale a (mean (data B)))).
Proof.
  destruct (shape_eqb (shape inputs) (shape targets)) eqn:E.
  - pose proof (shape_eqb_eq _ _ E) as Hs.
    rewrite FocalLoss_forward_eq by assumption.
    unfold BCEWithLogitsLoss_none. rewrite E. cbn [bind data alpha gamma].
    f_equal.
    destruct (zipWith bce_with_logits (data inputs) (data targets))
      as [|b l] eqn:El; [reflexivity|].
    rewrite mean_map_nonempty, mean_nonempty by discriminate.
    cbn [Xscale]. f_equal. rewrite Rsum_scale. unfold Rdiv. ring.
  - unfold FocalLoss_forward, BCEWithLogitsLoss_none. now rewrite E.
Qed.

(** X9.  Down-weighting of easy elements: of two elements with targets in
    [0, 1], the one with the smaller cross-entropy has the smaller
    modulating factor and the smaller loss. *)
Theorem FocalLoss_forward_easy_first self x1 y1 x2 y2 :
  0 <= alpha self ->
  0 <= y1 <= 1 ->
  bce_with_logits x1 y1 <= bce_with_logits x2 y2 ->
  exists v1 v2,
    FocalLoss_forward self (single x1) (single y1) = Ok (Xreal v1)
    /\ FocalLoss_forward self (single x2) (single y2) = Ok (Xreal v2)
    /\ v1 <= v2
    /\ (1 - exp (- bce_with_logits x1 y1)) ^ gamma self
       <= (1 - exp (- bce_with_logits x2 y2)) ^ gamma self.
Proof.
  intros Ha Hy Hb.
  pose proof (bce_with_logits_nonneg x1 Hy) as H1.
  destruct (@focal_term_mono (alpha self) (gamma self)
              (bce_with_logits x1 y1) (bce_with_logits x2 y2) Ha
              (conj H1 Hb)) as [Hm Hf].
  exists ((focal_term (alpha self) (gamma self) (bce_with_logits x1 y1) + 0)
          / 1),
         ((focal_term (alpha self) (gamma self) (bce_with_logits x2 y2) + 0)
          / 1).
  split; [|split; [|split]].
  - rewrite FocalLoss_forward_eq by reflexivity. reflexivity.
  - rewrite FocalLoss_forward_eq by reflexivity. reflexivity.
  - lra.
  - exact Hm.
Qed.

(** A logit of 1 for a positive pixel is an easier example than a logit
    of 0. *)
Lemma bce_easier : bce_with_logits 1 1 <= bce_with_logits 0 1.
Proof.
  rewrite !bce_with_logits_eq.
  assert (H : ln (1 + exp (- (1))) < ln (1 + exp (- 0))).
  { pose proof (exp_pos (- (1))).
    apply ln_increasing; [lra|].
    apply Rplus_lt_compat_l, exp_increasing. lra. }
  lra.
Qed.

Lemma FocalLoss_forward_easy_first_witness :
  exists v1 v2,
    FocalLoss_forward criterion (single 1) (single 1) = Ok (Xreal v1)
    /\ FocalLoss_forward criterion (single 0) (single 1) = Ok (Xreal v2)
    /\ v1 <= v2
    /\ (1 - exp (- bce_with_logits 1 1)) ^ gamma criterion
       <= (1 - exp (- bce_with_logits 0 1)) ^ gamma criterion.
Proof.
  apply (@FocalLoss_forward_easy_first criterion 1 1 0 1).
  - simpl. lra.
  - lra.
  - exact bce_easier.
Defined.
End FocalMore.

(** ** The network on inputs of any size *)

Section ForwardAnySize.
Variable A : Type.
Variable zero : A.
Variable kernel : layer -> tensor A -> list A.
Hypothesis kernel_length :
  forall l t s, wf t -> layer_shape l (shape t) = Ok s ->
                length (kernel l t) = numel s.

(** X10.  A skip connection never fails on feature maps of one batch size: the
    encoder map is cropped (or padded with zeros) to the spatial size of
    the decoder map, whatever its own size, and the result has the
    channels of both and the spatial size of the decoder map. *)
Theorem crop_and_concat_total (up down : tensor A) n c1 c2 H W h w :
  shape up = [n; c1; H; W] -> wf up ->
  shape down = [n; c2; h; w] ->
  exists cropped t,
    CenterCrop zero H W down = Ok cropped
    /\ shape cropped = [n; c2; H; W]
    /\ crop_and_concat zero up down = Ok t
    /\ cat_channels up cropped = Ok t
    /\ shape t = [n; c1 + c2; H; W]
    /\ wf t.
Proof.
  intros Hu Hwu Hd.
  destruct (@CenterCrop_produces A zero down n c2 h w H W Hd)
    as (cropped & Hc & Hsc & Hwc).
  destruct (@cat_channels_produces A up cropped n c1 c2 H W Hu Hwu Hsc Hwc)
    as (t & Ht & Hst & Hwt).
  exists cropped, t.
  repeat match goal with |- _ /\ _ => split end; try assumption.
  unfold crop_and_concat. rewrite Hu, Hc. exact Ht.
Qed.


(** X12.  An image tensor whose channel count is not 3 is refused by the first
    convolution with a RuntimeError. *)
Theorem UNet_forward_wrong_channels x n c h w :
  shape x = [n; c; h; w] -> c <> 3 ->
  UNet_forward zero kernel model x = Raise RuntimeError.
Proof.
  intros Hs Hc. unfold UNet_forward.
  change (enc1 model) with (encoder 3 64).
  unfold encoder, CBR. cbn [app run]. unfold run_layer at 1.
  rewrite Hs. cbn [layer_shape].
  destruct (Nat.eqb_spec c 3) as [E | _]; [contradiction|]. reflexivity.
Qed.
End ForwardAnySize.

Lemma zero_kernel_length l (t : tensor R) s :
  wf t -> layer_shape l (shape t) = Ok s ->
  length (zero_kernel l t) = numel s.
Proof.
  intros _ H. unfold zero_kernel. rewrite H. apply repeat_length.
Qed.

Lemma zeros_wf s : wf (zeros s).
Proof. apply repeat_length. Qed.

Section ForwardAndLoss.
Variable training : bool.
Variable kernel : layer -> tensor R -> list R.
Hypothesis kernel_length :
  forall l t s, wf t -> layer_shape l (shape t) = Ok s ->
                length (kernel l t) = numel s.

(** X13.  The network and the loss compose only on sizes that are
    multiples of 16.  For at least one image of at least 16 x 16 pixels
    and masks of the size of the images, in eval mode or when
    N * (H / 16) * (W / 16) is not 1, [model(images)] returns logit maps
    whose sides are H and W rounded down to multiples of 16; the loss of
    these against the masks is computed exactly when 16 divides H and W,
    and is refused with the ValueError of the loss otherwise. *)
Theorem loss_of_call_sizes (self : FocalLoss) images masks N H W :
  shape images = [N; 3; H; W] -> wf images ->
  shape masks = [N; 1; H; W] ->
  0 < N -> 16 <= H -> 16 <= W ->
  training = false \/ N * (H / 16) * (W / 16) <> 1 ->
  exists outputs,
    UNet_call training 0%R kernel model images = Ok outputs
    /\ shape outputs = [N; 1; 16 * (H / 16); 16 * (W / 16)]
    /\ ((exists l, FocalLoss_forward self outputs masks = Ok l)
        <-> Nat.divide 16 H /\ Nat.divide 16 W)
    /\ (FocalLoss_forward self outputs masks = Raise ValueError
        <-> ~ (Nat.divide 16 H /\ Nat.divide 16 W)).
Proof.
  intros Hi Hwi Hm _ HH HW Hmode.
  destruct (@UNet_call_stages R training 0%R kernel kernel_length images
              N H W Hi Hwi HH HW Hmode)
    as (e1 & e2 & e3 & e4 & b & k1 & c1 & d1 & k2 & c2 & d2 & k3 & c3 & d3
        & k4 & c4 & d4 & y & Hstages).
  assert (Hy : UNet_call training 0%R kernel model images = Ok y) by tauto.
  assert (Hp : produces (layer_call training kernel (final model) d4) y
                 [N; 1; 16 * (H / 16); 16 * (W / 16)]) by tauto.
  destruct Hp as (_ & Hs & _). clear Hstages.
  exists y. split; [exact Hy|]. split; [exact Hs|].
  assert (Hshape : shape y = shape masks
                   <-> Nat.divide 16 H /\ Nat.divide 16 W).
  { rewrite Hs, Hm. split.
    - intro E. split; apply sixteen_divides; congruence.
    - intros [DH DW]. apply sixteen_divides in DH, DW.
      now rewrite DH, DW. }
  destruct (shape_eqb (shape y) (shape masks)) eqn:E.
  - apply shape_eqb_eq in E.
    pose proof (FocalLoss_forward_eq self _ _ E) as Hl.
    split; split.
    + intros _. now apply Hshape.
    + intros _. eexists. exact Hl.
    + intro Hr. rewrite Hl in Hr. discriminate.
    + intro Hn. exfalso. apply Hn. now apply Hshape.
  - assert (Hne : shape y <> shape masks).
    { intro Heq. rewrite Heq, shape_eqb_refl in E. discriminate. }
    assert (Hr : FocalLoss_forward self y masks = Raise ValueError).
    { unfold FocalLoss_forward, BCEWithLogitsLoss_none. now rewrite E. }
    split; split.
    + intros [l Hl]. rewrite Hr in Hl. discriminate.
    + intro Hd. exfalso. apply Hne. now apply Hshape.
    + intros _ Hd. apply Hne. now apply Hshape.
    + intros _. exact Hr.
Qed.
End ForwardAndLoss.

Lemma crop_and_concat_total_witness :
  exists cropped t,
    CenterCrop tt 2 2 (blank [1; 256; 3; 3]) = Ok cropped
    /\ shape cropped = [1; 256; 2; 2]
    /\ crop_and_concat tt (blank [1; 1024; 2; 2]) (blank [1; 256; 3; 3])
       = Ok t
    /\ cat_channels (blank [1; 1024; 2; 2]) cropped = Ok t
    /\ shape t = [1; 1024 + 256; 2; 2]
    /\ wf t.
Proof.
  apply (@crop_and_concat_total unit tt (blank [1; 1024; 2; 2])
           (blank [1; 256; 3; 3]) 1 1024 256 2 2 3 3).
  - reflexivity.
  - vm_compute. reflexivity.
  - reflexivity.
Defined.


Lemma UNet_forward_wrong_channels_witness :
  UNet_forward tt unit_kernel model (blank [1; 1; 16; 16])
  = Raise RuntimeError.
Proof.
  apply (@UNet_forward_wrong_channels unit tt unit_kernel
           (blank [1; 1; 16; 16]) 1 1 16 16).
  - reflexivity.
  - discriminate.
Defined.

Lemma loss_of_call_sizes_witness :
  exists outputs,
    UNet_call true 0%R zero_kernel model (zeros [2; 3; 24; 40]) = Ok outputs
    /\ shape outputs = [2; 1; 16 * (24 / 16); 16 * (40 / 16)]
    /\ ((exists l,
           FocalLoss_forward criterion outputs (zeros [2; 1; 24; 40]) = Ok l)
        <-> Nat.divide 16 24 /\ Nat.divide 16 40)
    /\ (FocalLoss_forward criterion outputs (zeros [2; 1; 24; 40])
        = Raise ValueError
        <-> ~ (Nat.divide 16 24 /\ Nat.divide 16 40)).
Proof.
  apply (@loss_of_call_sizes true zero_kernel zero_kernel_length criterion
           (zeros [2; 3; 24; 40]) (zeros [2; 1; 24; 40]) 2 24 40).
  - reflexivity.
  - apply zeros_wf.
  - reflexivity.
  - lia.
  - lia.
  - lia.
  - right. intro E. vm_compute in E. discriminate E.
Defined.

(** ** The dataset: indices *)

Section DatasetIndices.
Variable obj : Type.
Variable rng : Type.
Variable Image_open : string -> result obj.
Variable convert : string -> obj -> result obj.
Variable deterministic : transform -> obj -> obj.
Variable randomized : transform -> rng -> obj -> obj * rng.

Lemma iloc_out_of_range df idx col :
  (idx < - Z.of_nat (length (rows df))
   \/ Z.of_nat (length (rows df)) <= idx)%Z ->
  iloc df idx col = Raise IndexError.
Proof.
  intro H. unfold iloc. cbv zeta.
  destruct (idx <? 0)%Z eqn:E;
    [apply Z.ltb_lt in E | apply Z.ltb_ge in E].
  - assert (B : ((0 <=? Z.of_nat (length (rows df)) + idx)
                 && (Z.of_nat (length (rows df)) + idx
                     <? Z.of_nat (length (rows df))))%Z = false) by lia.
    now rewrite B.
  - assert (B : ((0 <=? idx) && (idx <? Z.of_nat (length (rows df))))%Z
                = false) by lia.
    now rewrite B.
Qed.

Lemma iloc_negative df idx col :
  (- Z.of_nat (length (rows df)) <= idx < 0)%Z ->
  iloc df idx col = iloc df (Z.of_nat (length (rows df)) + idx) col.
Proof.
  intro H. unfold iloc. cbv zeta.
  assert (E1 : (idx <? 0)%Z = true) by lia.
  assert (E2 : (Z.of_nat (length (rows df)) + idx <? 0)%Z = false) by lia.
  now rewrite E1, E2.
Qed.

(** X14.  An index outside [-len, len) is refused with an IndexError, before
    any file is opened. *)
Theorem FloodDataset_getitem_out_of_range self idx g :
  (idx < - Z.of_nat (FloodDataset_len self)
   \/ Z.of_nat (FloodDataset_len self) <= idx)%Z ->
  FloodDataset_getitem Image_open convert deterministic randomized self idx g
  = Raise IndexError.
Proof.
  intro H. unfold FloodDataset_getitem.
  now rewrite (@iloc_out_of_range (img_labels self) idx 0 H).
Qed.

(** X15.  A negative index counts from the end: for [-len <= idx < 0] the item
    at [idx] is the item at [len + idx]. *)
Theorem FloodDataset_getitem_negative self idx g :
  (- Z.of_nat (FloodDataset_len self) <= idx < 0)%Z ->
  FloodDataset_getitem Image_open convert deterministic randomized self idx g
  = FloodDataset_getitem Image_open convert deterministic randomized self
      (Z.of_nat (FloodDataset_len self) + idx) g.
Proof.
  intro H. unfold FloodDataset_getitem, FloodDataset_len in *.
  now rewrite !(@iloc_negative (img_labels self) idx _ H).
Qed.
End DatasetIndices.

Lemma FloodDataset_getitem_out_of_range_witness :
  FloodDataset_getitem open_path tag_mode keep draw one_row_dataset 1 0
  = Raise IndexError.
Proof.
  apply (@FloodDataset_getitem_out_of_range string nat open_path tag_mode
           keep draw one_row_dataset 1%Z 0).
  right. simpl. lia.
Defined.

Lemma FloodDataset_getitem_negative_witness :
  FloodDataset_getitem open_path tag_mode keep draw one_row_dataset (-1) 0
  = FloodDataset_getitem open_path tag_mode keep draw one_row_dataset
      (Z.of_nat (FloodDataset_len one_row_dataset) + -1) 0.
Proof.
  apply (@FloodDataset_getitem_negative string nat open_path tag_mode
           keep draw one_row_dataset (-1)%Z 0).
  simpl. lia.
Defined.

(** ** The loops: edge cases and what they leave unchanged *)

Section LoopsMore.
Variable params : Type.
Variable grads : Type.
Variable ostate : Type.
Variable model_forward :
  params -> bool -> tensor R -> result (tensor R * params).
Variable no_grads : grads.
Variable autograd : params -> tensor R -> tensor R -> grads -> grads.
Variable AdamW_step : params -> grads -> ostate -> params * ostate.
Variable train_loader : nat -> list (tensor R * tensor R).
Variable test_loader : list (tensor R * tensor R).

(** X16.  When the loader yields no batch in the first epoch, the print at the
    end of that epoch finds [loss] unbound: the loop stops with a
    NameError. *)
Theorem training_loop_no_batch (st : state params grads ostate) :
  train_loader 0 = [] ->
  training_loop model_forward no_grads autograd AdamW_step train_loader st
  = Raise NameError.
Proof.
  intro H. unfold training_loop.
  change (seq 0 num_epochs) with (0 :: seq 1 9).
  cbn [train_epochs]. rewrite H. reflexivity.
Qed.

(** X17.  The loop starts afresh: [model.train()] and [optimizer.zero_grad()]
    come before the first forward pass, so the outcome does not depend on
    the mode in which the model was left nor on gradients accumulated
    before. *)
Theorem training_loop_fresh_start (st1 st2 : state params grads ostate) :
  model_params st1 = model_params st2 ->
  grad_enabled st1 = grad_enabled st2 ->
  optimizer_state st1 = optimizer_state st2 ->
  trace st1 = trace st2 ->
  training_loop model_forward no_grads autograd AdamW_step train_loader st1
  = training_loop model_forward no_grads autograd AdamW_step train_loader st2.
Proof.
  intros Hp Hg Ho Ht. unfold training_loop.
  change (seq 0 num_epochs) with (0 :: seq 1 9).
  cbn [train_epochs].
  destruct (train_loader 0) as [|[images masks] rest].
  - reflexivity.
  - cbn [train_batches].
    assert (E : optimizer_zero_grad no_grads (model_train st1)
                = optimizer_zero_grad no_grads (model_train st2)).
    { unfold optimizer_zero_grad, model_train, set_training, log.
      cbn [model_params training grad_enabled param_grads optimizer_state
           trace].
      now rewrite Hp, Hg, Ho, Ht. }
    now rewrite E.
Qed.

Lemma eval_batches_frame batches :
  forall (st st' : state params grads ostate) total total' count count',
    eval_batches model_forward batches st total count
    = Ok (st', total', count') ->
    param_grads st' = param_grads st
    /\ optimizer_state st' = optimizer_state st
    /\ grad_enabled st' = grad_enabled st
    /\ training st' = training st
    /\ count' = count + length batches.
Proof.
  induction batches as [|[images masks] rest IH];
    intros st st' total total' count count' H.
  - injection H as <- _ <-. simpl. repeat split; lia.
  - cbn [eval_batches] in H. unfold model_call in H.
    destruct (model_forward (model_params st) (training st) images)
      as [[outputs p']|e]; cbn [bind] in H; [|discriminate].
    destruct (calculate_iou outputs masks) as [iou|e]; cbn [bind] in H;
      [|discriminate].
    apply IH in H. cbn [param_grads optimizer_state grad_enabled training log]
      in H.
    destruct H as (H1 & H2 & H3 & H4 & H5).
    repeat split; try assumption. simpl. lia.
Qed.

Lemma eval_batches_raise batches :
  forall (st : state params grads ostate) total count e,
    training st = false ->
    eval_batches model_forward batches st total count = Raise e ->
    exists images masks p,
      In (images, masks) batches
      /\ (model_forward p false images = Raise e
          \/ exists outputs p',
               model_forward p false images = Ok (outputs, p')
               /\ calculate_iou outputs masks = Raise e).
Proof.
  induction batches as [|[images masks] rest IH];
    intros st total count e Htr H; [discriminate|].
  cbn [eval_batches] in H. unfold model_call in H.
  destruct (model_forward (model_params st) (training st) images)
    as [[outputs p']|e1] eqn:Hf; rewrite Htr in Hf; cbn [bind] in H.
  - destruct (calculate_iou outputs masks) as [iou|e2] eqn:Hc;
      cbn [bind] in H.
    + apply IH in H; [|exact Htr].
      destruct H as (im & mk & p & Hin & Hcase).
      exists im, mk, p. split; [now right|assumption].
    + injection H as <-. exists images, masks, (model_params st).
      split; [now left|]. right. now exists outputs, p'.
  - injection H as <-. exists images, masks, (model_params st).
    split; [now left|now left].
Qed.

(** X18.  The evaluation fails in two ways only: on an empty test loader,
    with ZeroDivisionError at the division by [count]; otherwise with the
    error that the model, called in eval mode, or [calculate_iou] raised
    on one of the batches. *)
Theorem evaluation_failures (st : state params grads ostate) :
  (test_loader = [] ->
   evaluation model_forward test_loader st = Raise ZeroDivisionError)
  /\ (forall e,
        evaluation model_forward test_loader st = Raise e ->
        (test_loader = [] /\ e = ZeroDivisionError)
        \/ exists images masks p,
             In (images, masks) test_loader
             /\ (model_forward p false images = Raise e
                 \/ exists outputs p',
                      model_forward p false images = Ok (outputs, p')
                      /\ calculate_iou outputs masks = Raise e)).
Proof.
  split.
  - intros ->. reflexivity.
  - intros e H. unfold evaluation in H.
    destruct (eval_batches model_forward test_loader
                (set_grad_enabled false (model_eval st)) (Xreal 0) 0)
      as [[[st1 total] count]|e1] eqn:E; cbn [bind] in H.
    + pose proof E as Hf. apply eval_batches_frame in Hf.
      destruct Hf as (_ & _ & _ & _ & Hc).
      destruct (Nat.eqb count 0) eqn:Ez; cbn [bind] in H; [|discriminate].
      injection H as <-. left. split; [|reflexivity].
      apply Nat.eqb_eq in Ez. destruct test_loader; [reflexivity|].
      simpl in Hc. lia.
    + injection H as <-. right.
      apply eval_batches_raise in E; [exact E|reflexivity].
Qed.

(** X19.  Evaluation trains nothing: when it completes, the accumulated
    gradients and the state of the optimizer are as before, the gradient
    mode is restored, and the model is left in eval mode. *)
Theorem evaluation_frame (st st' : state params grads ostate) v :
  evaluation model_forward test_loader st = Ok (v, st') ->
  param_grads st' = param_grads st
  /\ optimizer_state st' = optimizer_state st
  /\ grad_enabled st' = grad_enabled st
  /\ training st' = false.
Proof.
  unfold evaluation. intro H.
  destruct (eval_batches model_forward test_loader
              (set_grad_enabled false (model_eval st)) (Xreal 0) 0)
    as [[[st1 total] count]|e] eqn:E; cbn [bind] in H; [|discriminate].
  destruct (Nat.eqb count 0); cbn [bind] in H; [discriminate|].
  injection H as _ <-.
  apply eval_batches_frame in E.
  cbn [param_grads optimizer_state grad_enabled training log
       set_grad_enabled model_eval set_training] in *.
  destruct E as (H1 & H2 & _ & H4 & _). now repeat split.
Qed.

Lemma calculate_iou_range preds labels d0 d1 d2 rest :
  shape preds = d0 :: d1 :: d2 :: rest ->
  shape labels = shape preds ->
  wf preds -> wf labels -> binary_labels labels ->
  0 < d0 * numel rest ->
  exists v, calculate_iou preds labels = Ok (Xreal v) /\ (0 < v <= 1)%R.
Proof.
  intros Hp Hl Hwp Hwl Hb Hne.
  rewrite (@calculate_iou_eq preds labels d0 d1 d2 rest Hp Hl).
  destruct (@reduced_counts preds labels d0 d1 d2 rest Hp Hl Hwp Hwl Hb)
    as (HIU & Hlen & _).
  set (I := reduce_blocks d0 (d1 * d2) (numel rest)
              (and_bits (data preds) (data labels))) in *.
  set (U := reduce_blocks d0 (d1 * d2) (numel rest)
              (or_bits (data preds) (data labels))) in *.
  assert (Hnil : zipWith iou_ratio I U <> []).
  { intro Hz. apply (f_equal (@length R)) in Hz.
    rewrite zipWith_length in Hz by (eapply Forall2_length_eq; exact HIU).
    simpl in Hz. lia. }
  destruct (mean_unit Hnil (ratios_unit HIU)) as (v & Hv & Hrange & _).
  exists v. now rewrite Hv.
Qed.

Lemma batch_ious_range batches :
  evaluable model_forward batches ->
  forall p, exists vs,
    batch_ious model_forward p batches = Ok (map Xreal vs)
    /\ Forall (fun v => (0 < v <= 1)%R) vs
    /\ length vs = length batches.
Proof.
  induction batches as [|[images masks] rest IH]; intros Hok p.
  - exists []. repeat split. constructor.
  - destruct (Hok images masks (or_introl eq_refl) p)
      as (outputs & p' & d0 & d1 & d2 & r & Hf & Hs & Hm & Hwo & Hwm & Hb
          & Hne).
    destruct (@calculate_iou_range outputs masks d0 d1 d2 r Hs Hm Hwo Hwm
                Hb Hne) as (v & Hv & Hr).
    destruct (IH (fun im mk Hin => Hok im mk (or_intror Hin)) p')
      as (vs & Hvs & Hall & Hlen).
    exists (v :: vs). cbn [batch_ious]. rewrite Hf. cbn [bind].
    rewrite Hv. cbn [bind]. rewrite Hvs. cbn [bind map length].
    repeat split; [now constructor|now rewrite Hlen].
Qed.

(** X20.  On a non-empty test loader whose batches the network accepts,
    returning non-empty logit maps of the shape of 0/1 masks, the
    evaluation completes and the average it reports is a number in
    (0, 1]. *)
Theorem evaluation_unit_interval (st : state params grads ostate) :
  evaluable model_forward test_loader ->
  test_loader <> [] ->
  exists v st',
    evaluation model_forward test_loader st = Ok (Xreal v, st')
    /\ (0 < v <= 1)%R.
Proof.
  intros Hok Hne.
  destruct (@batch_ious_range test_loader Hok (model_params st))
    as (vs & Hvs & Hall & Hlen).
  destruct (@eval_batches_spec params grads ostate model_forward test_loader
              (set_grad_enabled false (model_eval st)) (Xreal 0) 0
              (map Xreal vs) eq_refl eq_refl Hvs)
    as (st1 & Hrun & _ & _).
  assert (Hvne : vs <> []).
  { intro E. subst vs. destruct test_loader; [contradiction|discriminate]. }
  destruct (mean_unit Hvne Hall) as (v & Hv & Hrange & _).
  exists v. eexists. split; [|exact Hrange].
  unfold evaluation. rewrite Hrun. cbn [bind].
  rewrite Xsum_reals, length_map, Nat.add_0_l.
  destruct vs as [|x vs']; [contradiction|].
  cbn [length Nat.eqb bind Xdiv].
  cbn [mean] in Hv. injection Hv as <-.
  rewrite Rplus_0_l. reflexivity.
Qed.
End LoopsMore.

Lemma training_loop_no_batch_witness :
  training_loop identity_forward tt keep_grads keep_params no_batches
    initial_state
  = Raise NameError.
Proof.
  apply (@training_loop_no_batch unit unit unit identity_forward tt
           keep_grads keep_params no_batches initial_state).
  reflexivity.
Defined.

Lemma training_loop_fresh_start_witness :
  training_loop identity_forward tt keep_grads keep_params one_batch
    initial_state
  = training_loop identity_forward tt keep_grads keep_params one_batch
      (set_training true initial_state).
Proof.
  apply (@training_loop_fresh_start unit unit unit identity_forward tt
           keep_grads keep_params one_batch initial_state
           (set_training true initial_state)); reflexivity.
Defined.

Lemma evaluation_unit_interval_witness :
  exists v st',
    evaluation identity_forward two_batches initial_state
    = Ok (Xreal v, st')
    /\ (0 < v <= 1)%R.
Proof.
  apply (@evaluation_unit_interval unit unit unit identity_forward
           two_batches initial_state).
  - intros images masks [H | [H | []]] p; injection H as <- <-;
      exists column_preds, tt, 1, 1, 2, [2];
      (split; [reflexivity|]); (split; [reflexivity|]);
      (split; [reflexivity|]); (split; [reflexivity|]);
      (split; [reflexivity|]);
      (split; [|simpl; lia]);
      unfold binary_labels, row_labels; cbn [data];
      repeat (apply Forall_cons;
              [(left; reflexivity) || (right; reflexivity)|]);
      apply Forall_nil.
  - discriminate.
Defined.

Lemma evaluation_frame_witness :
  param_grads evaluated_state = param_grads initial_state
  /\ optimizer_state evaluated_state = optimizer_state initial_state
  /\ grad_enabled evaluated_state = grad_enabled initial_state
  /\ training evaluated_state = false.
Proof.
  apply (@evaluation_frame unit unit unit identity_forward two_batches
           initial_state evaluated_state two_batches_average).
  exact evaluation_two_batches.
Defined.
